(** * Battery-Sim-Python: the request-to-chart-data pipeline

    A shallow embedding of [utils.py] and [lab2.py].

    - Python numbers: [int] is [Z], [float] is IEEE binary64 ([PrimFloat]).
    - Exceptions: an error monad ([result]); code that mutates the parameter
      store in place threads the store ([M]).
    - The solver library (PyBaMM), NumPy and Flask are collaborators: their
      operations are section variables, or small models of their documented
      behaviour where a claim depends on it ([linspace], the parameter store).
    - Python's reading of text as a number ([float] on a string) is a section
      variable too. *)

From Stdlib Require Import ZArith Floats Lia.
From stdpp Require Import gmap strings list.

Set Warnings "-inexact-float,-register-all".

Local Open Scope Z_scope.

(** ** Python values, truthiness and the arithmetic the code uses *)

Module Py.

Inductive exn :=
| TypeError
| ZeroDivisionError
| OverflowError
| AttributeError
| KeyError (key : string)
| ValueError (text : string)
| LibraryError (description : string).

Inductive result (A : Type) :=
| Ok (a : A)
| Raise (e : exn).
Arguments Ok {A} a.
Arguments Raise {A} e.

Definition bind {A B} (r : result A) (k : A → result B) : result B :=
  match r with
  | Ok a => k a
  | Raise e => Raise e
  end.

#[global] Instance result_ret : MRet result := @Ok.
#[global] Instance result_bind : MBind result := λ A B k r, bind r k.

(** The values a decoded JSON body or a parameter set can hold. *)
Inductive value :=
| PNone
| PBool (b : bool)
| PInt (z : Z)
| PFloat (f : float)
| PStr (s : string)
| PList (l : list value)
| PDict (items : list (string * value)).

(** [bool(x)] *)
Definition truthy (x : value) : bool :=
  match x with
  | PNone => false
  | PBool b => b
  | PInt z => negb (z =? 0)
  | PFloat f => negb (PrimFloat.eqb f 0)
  | PStr s => negb (String.eqb s "")
  | PList l => negb (Nat.eqb (length l) 0)
  | PDict items => negb (Nat.eqb (length items) 0)
  end.

(** [x != 0] *)
Definition ne_zero (x : value) : bool :=
  match x with
  | PBool b => b
  | PInt z => negb (z =? 0)
  | PFloat f => negb (PrimFloat.eqb f 0)
  | PNone | PStr _ | PList _ | PDict _ => true
  end.

(** [x and x != 0], as an [if] tests it. *)
Definition and_ne_zero (x : value) : bool :=
  if truthy x then ne_zero x else false.

(** [int] to [float]: round to nearest even, [OverflowError] past the
    largest double. *)
Definition Z2SF (z : Z) : spec_float := binary_normalize prec emax z 0 false.

Definition Z2float (z : Z) : float := SF2Prim (Z2SF z).

Definition float_of_int (z : Z) : result float :=
  match Z2SF z with
  | S754_infinity _ => Raise OverflowError
  | sf => Ok (SF2Prim sf)
  end.

Inductive number :=
| NInt (z : Z)
| NFloat (f : float).

Definition as_number (x : value) : option number :=
  match x with
  | PBool b => Some (NInt (Z.b2z b))
  | PInt z => Some (NInt z)
  | PFloat f => Some (NFloat f)
  | PNone | PStr _ | PList _ | PDict _ => None
  end.

Definition to_float (n : number) : result float :=
  match n with
  | NInt z => float_of_int z
  | NFloat f => Ok f
  end.

(** [x * f] and [x + f] for a float [f]: a sequence on the left is a
    [TypeError] (a sequence repeats only by an [int]). *)
Definition mul_float (x : value) (f : float) : result float :=
  match as_number x with
  | Some n => bind (to_float n) (λ a, Ok (PrimFloat.mul a f))
  | None => Raise TypeError
  end.

Definition add_float (x : value) (f : float) : result float :=
  match as_number x with
  | Some n => bind (to_float n) (λ a, Ok (PrimFloat.add a f))
  | None => Raise TypeError
  end.

(** [a / b] on two ints: the correctly rounded quotient.  The quotient is
    taken with at least 55 significant bits, the remainder is folded into
    the lowest bit, and the result is rounded once. *)
Definition int_truediv (a b : Z) : result float :=
  if b =? 0 then Raise ZeroDivisionError
  else
    let negate := xorb (a <? 0) (b <? 0) in
    if a =? 0 then Ok (if negate then (-0)%float else 0%float)
    else
      let na := Z.abs a in
      let nb := Z.abs b in
      let k := Z.max 0 (55 + Z.log2 nb - Z.log2 na) in
      let q := (na * 2 ^ k) / nb in
      let r := (na * 2 ^ k) mod nb in
      let q' := if r =? 0 then q else Z.lor q 1 in
      match binary_normalize prec emax (if negate then - q' else q') (- k) negate with
      | S754_infinity _ => Raise OverflowError
      | sf => Ok (SF2Prim sf)
      end.

(** [a / b]: always a float; a zero divisor raises. *)
Definition truediv (a b : value) : result float :=
  match as_number a, as_number b with
  | Some (NInt x), Some (NInt y) => int_truediv x y
  | Some x, Some y =>
      bind (to_float x) (λ fx,
      bind (to_float y) (λ fy,
        if PrimFloat.eqb fy 0 then Raise ZeroDivisionError
        else Ok (PrimFloat.div fx fy)))
  | _, _ => Raise TypeError
  end.

(** [str.capitalize()] and [s[:-1]] on ASCII text. *)
Definition upper_ascii (c : Ascii.ascii) : Ascii.ascii :=
  let n := Ascii.N_of_ascii c in
  if ((97 <=? n) && (n <=? 122))%N then Ascii.ascii_of_N (n - 32) else c.

Definition lower_ascii (c : Ascii.ascii) : Ascii.ascii :=
  let n := Ascii.N_of_ascii c in
  if ((65 <=? n) && (n <=? 90))%N then Ascii.ascii_of_N (n + 32) else c.

Fixpoint lower (s : string) : string :=
  match s with
  | EmptyString => EmptyString
  | String c s' => String (lower_ascii c) (lower s')
  end.

Definition capitalize (s : string) : string :=
  match s with
  | EmptyString => EmptyString
  | String c s' => String (upper_ascii c) (lower s')
  end.

Fixpoint drop_last (s : string) : string :=
  match s with
  | EmptyString => EmptyString
  | String c EmptyString => EmptyString
  | String c s' => String c (drop_last s')
  end.

End Py.

Import Py.

(** ** The parameter store: [pybamm.ParameterValues]

    The solver library's parameter set is used through [get] and [update]
    only; it is the mapping from parameter name to value that a request
    mutates in place.  [update_parameters] returns nothing and may raise
    after some updates were made, so a run yields the store as it was left
    together with the outcome.

    The values are plain data.  The library's symbolic values are not
    modelled, but for the marker string that stands for one. *)

Module Store.

Definition M (A : Type) : Type :=
  gmap string value → gmap string value * result A.

Definition ret {A} (a : A) : M A := λ p, (p, Ok a).

Definition bind {A B} (m : M A) (k : A → M B) : M B :=
  λ p, match m p with
       | (p', Ok a) => k a p'
       | (p', Raise e) => (p', Raise e)
       end.

Definition lift {A} (r : result A) : M A := λ p, (p, r).

(** [parameters.get(key)]: [None] when the key is missing. *)
Definition get (key : string) : M value :=
  λ p, (p, Ok (default PNone (p !! key))).

(** What [update] keeps for a value.  A string is read as a number,
    [float(v)], which is a [ValueError] when the string is not one; the
    marker "[input]" turns the parameter into an input of the solver and is
    kept as the marker.  Any other value is kept as it is.  [float_of_str]
    is Python's [float] on a string. *)
Definition stored (float_of_str : string → option float) (v : value)
    : result value :=
  match v with
  | PStr s =>
      if String.eqb s "[input]" then Ok v
      else match float_of_str s with
           | Some f => Ok (PFloat f)
           | None => Raise (ValueError s)
           end
  | _ => Ok v
  end.

(** [parameters.update({key: v}, check_already_exists=..)]: with the check
    on, as it is unless the caller turns it off, a key the set lacks is a
    [KeyError]; the value is converted after the check, and nothing is
    written when either raises. *)
Definition update (float_of_str : string → option float)
    (check_already_exists : bool) (key : string) (v : value) : M unit :=
  λ p, if check_already_exists && bool_decide (p !! key = None)
       then (p, Raise (KeyError key))
       else match stored float_of_str v with
            | Ok v' => (<[key := v']> p, Ok tt)
            | Raise e => (p, Raise e)
            end.

(** An [if] without [else]. *)
Definition when (b : bool) (m : M unit) : M unit :=
  if b then m else ret tt.

End Store.

#[global] Instance store_ret : MRet Store.M := @Store.ret.
#[global] Instance store_bind : MBind Store.M := λ A B k m, Store.bind m k.

Section Merge.

(** Python's [float] on a string: the number it reads as, if it is one. *)
Variable float_of_str : string → option float.

(** [parameters.update({key: v})]; a dict of several items is updated one
    item after the other, in the order the dict lists them. *)
Definition update_item : string → value → Store.M unit :=
  Store.update float_of_str true.

Definition update_parameters
    (temperature capacity PosElectrodeThickness silicon_percent : value)
    : Store.M unit :=
  Store.when (and_ne_zero temperature)
     (update_item "Ambient temperature [K]" temperature) ;;
   Store.when (and_ne_zero capacity)
     (nominal_capacity ← Store.get "Nominal cell capacity [A.h]";
      nominal_height ← Store.get "Electrode height [m]";
      ratio ← Store.lift (truediv capacity nominal_capacity);
      new_height ← Store.lift (mul_float nominal_height ratio);
      update_item "Electrode height [m]" (PFloat new_height)) ;;
   Store.when (and_ne_zero PosElectrodeThickness)
     (update_item "Positive electrode thickness [m]" PosElectrodeThickness) ;;
   Store.when (truthy silicon_percent)
     (silicon_percent' ← Store.lift (mul_float silicon_percent 0.5);
      update_item "Primary: Negative electrode active material volume fraction"
        (PFloat (1 - silicon_percent')) ;;
      update_item "Secondary: Negative electrode active material volume fraction"
        (PFloat silicon_percent')).

(** The overrides the lab 2 handler applies to every request. *)
Definition lab2_overrides : Store.M unit :=
  update_item "Primary: Maximum concentration in negative electrode [mol.m-3]"
    (PInt 28700) ;;
  update_item "Primary: Initial concentration in negative electrode [mol.m-3]"
    (PInt 23000) ;;
  update_item "Primary: Negative electrode diffusivity [m2.s-1]"
    (PFloat 5.5e-14) ;;
  update_item "Secondary: Negative electrode diffusivity [m2.s-1]"
    (PFloat 1.67e-14) ;;
  update_item "Secondary: Initial concentration in negative electrode [mol.m-3]"
    (PInt 277000) ;;
  update_item "Secondary: Maximum concentration in negative electrode [mol.m-3]"
    (PInt 278000).

End Merge.

(** ** Chemistry tables *)

(** Battery titles in the front end mapping to the parameter set in PyBaMM. *)
Definition batteries : list (string * string) :=
  [ ("NMC", "Mohtat2020");
    ("NCA", "NCA_Kim2011");
    ("LFP", "Prada2013");
    ("LG M50", "OKane2022");
    ("Silicon", "Chen2020_composite");
    ("LFPBackup", "Ecker2015") ].

(** [d[key]] on a dict given by its items (keys are distinct). *)
Fixpoint dict_lookup {A} (d : list (string * A)) (key : string) : result A :=
  match d with
  | [] => Raise (KeyError key)
  | (k, v) :: d' => if String.eqb k key then Ok v else dict_lookup d' key
  end.

(** The function falls off its end for any other name: the caller gets
    [None]. *)
Definition get_voltage_limits (battery_type : string) : option (value * value) :=
  if String.eqb battery_type "LFP" then Some (PFloat 2.5, PFloat 3.65)
  else if String.eqb battery_type "NMC" then Some (PInt 3, PFloat 4.2)
  else if String.eqb battery_type "NCA" then Some (PFloat 2.5, PFloat 4.3)
  else None.

(** Cut the array in half, select every other element: [list[::2]]. *)
Fixpoint remove_every_other_from_array {A} (l : list A) : list A :=
  match l with
  | [] => []
  | [x] => [x]
  | x :: _ :: l' => x :: remove_every_other_from_array l'
  end.

(** [numpy.argmax] on a non-empty array of doubles, given by its first
    element and the rest: the index of the first maximum; a NaN counts as
    maximal and ends the scan.  [mp] is the maximum so far, [max_ind] its
    index and [i] the index of the element looked at. *)
Definition is_nan (x : float) : bool := negb (PrimFloat.eqb x x).

Fixpoint argmax_loop (mp : float) (max_ind i : nat) (rest : list float) : nat :=
  match rest with
  | [] => max_ind
  | x :: rest' =>
      if negb (PrimFloat.leb x mp) then
        if is_nan x then i else argmax_loop x i (S i) rest'
      else argmax_loop mp max_ind (S i) rest'
  end.

Definition argmax (first : float) (rest : list float) : nat :=
  if is_nan first then O else argmax_loop first 0 1 rest.

(** The elements to the left and to the right of the peak (the maximum
    value), both empty for an empty array. *)
Definition split_at_peak (arr : list float) : list float * list float :=
  match arr with
  | [] => ([], [])
  | first :: rest =>
      let peak_index := argmax first rest in
      (take peak_index arr, drop (peak_index + 1) arr)
  end.

(** ** Solver output and chart series *)

(** One cycle maps a variable name to its samples ([cycle[v].entries]); a
    solution is indexed the same way and lists its cycles. *)
Record Solution := {
  sol_entries : gmap string (list float);
  cycles : list (gmap string (list float))
}.

(** A trace: [{"name": .., "values": ..}], with ["fname"] when the code
    gives one. *)
Record Series := {
  name : string;
  fname : option string;
  values : list float
}.

(** The two dicts of an experiment result: [{"title": ..}] and
    [{"graphs": ..}]. *)
Inductive group_item :=
| Title (title : string)
| Graphs (graphs : list Series).

(** [v.entries.tolist()] of a variable of a cycle; an unknown variable is a
    [KeyError]. *)
Definition entries (cycle : gmap string (list float)) (variable_name : string)
    : result (list float) :=
  match cycle !! variable_name with
  | Some l => Ok l
  | None => Raise (KeyError variable_name)
  end.

(** [numpy.linspace(0, stop, num)] (endpoint included): [num] samples
    [i * step] with [step = (stop - 0) / (num - 1)], the last one set to
    [stop]; a single sample is the start alone; a zero step divides first. *)
Definition linspace0 (stop : float) (num : nat) : list float :=
  let delta := (stop - 0)%float in
  match num with
  | O => []
  | S O => [(0 * delta + 0)%float]
  | S div =>
      let step := (delta / Z2float (Z.of_nat div))%float in
      let sample (i : nat) : float :=
        ((if PrimFloat.eqb step 0
          then Z2float (Z.of_nat i) / Z2float (Z.of_nat div) * delta
          else Z2float (Z.of_nat i) * step) + 0)%float in
      map sample (seq 0 div) ++ [stop]
  end.

(** The loop [for cycle in solution.cycles: function += ...]. *)
Fixpoint flatten_cycles (cycles : list (gmap string (list float)))
    (variable_name : string) (function : list float) : result (list float) :=
  match cycles with
  | [] => Ok function
  | cycle :: cycles' =>
      l ← entries cycle variable_name;
      flatten_cycles cycles' variable_name (function ++ l)
  end.

(** Returns graph dictionary ready to be sent to the front-end.
    [number_of_cycles] is the bound as [linspace] converts it (3 is 3.0). *)
Definition plot_against_cycle (solution : Solution) (number_of_cycles : float)
    (variable_name func_name : string) : result (list Series) :=
  function ← flatten_cycles (cycles solution) variable_name [];
  let cycles_array := linspace0 number_of_cycles (length function) in
  Ok [ {| name := "Cycle"; fname := None; values := cycles_array |};
       {| name := variable_name; fname := Some func_name; values := function |} ].

(** The loop of [plot_graphs_against_cycle]: [variables] is a dict (variable
    name to display name) iterated in insertion order; [y_axis_name] and
    [graphs] are the locals the body updates. *)
Fixpoint plot_graphs_loop (solution : Solution) (number_of_cycles : float)
    (variables : list (string * string)) (todo : list string)
    (y_axis_name : option string) (graphs : list Series)
    : result (list Series) :=
  match todo with
  | [] => Ok graphs
  | variable_name :: todo' =>
      let y_axis_name :=
        match y_axis_name with
        | None => variable_name
        | Some given => given
        end in
      function ← flatten_cycles (cycles solution) variable_name [];
      let cycles_array := linspace0 number_of_cycles (length function) in
      display ← dict_lookup variables variable_name;
      plot_graphs_loop solution number_of_cycles variables todo'
        (Some y_axis_name)
        (graphs ++
         [ {| name := "Cycle"; fname := None; values := cycles_array |};
           {| name := y_axis_name; fname := Some display; values := function |} ])
  end.

(** Returns graphs dictionary ready to be sent to the front-end. *)
Definition plot_graphs_against_cycle (solution : Solution)
    (number_of_cycles : float) (variables : list (string * string))
    (y_axis_name : option string) : result (list Series) :=
  plot_graphs_loop solution number_of_cycles variables (variables.*1)
    y_axis_name [].

(** ** The solver interface *)

Inductive model_option :=
| OStr (s : string)
| OTuple (items : list model_option).

Inductive model :=
| SPM
| DFN (options : list (string * model_option)).

(** [pybamm.CasadiSolver(mode, dt_max=.., extra_options_setup={"max_num_steps": ..})] *)
Record solver := {
  solver_mode : string;
  dt_max : option Z;
  max_num_steps : option Z
}.

(** An experiment is a list of entries, each a step string or a tuple of
    steps with their sampling period ([pybamm.step.string(s, period=..)]). *)
Inductive experiment_entry :=
| StepString (s : string)
| StepTuple (steps : list (string * string)).

(** The keyword arguments of [sim.solve]. *)
Record solve_args := {
  arg_solver : option solver;
  initial_soc : option Z;
  calc_esoh : option bool;
  save_at_cycles : option Z
}.

Record simulation := {
  sim_model : model;
  parameter_values : gmap string value;
  sim_solver : option solver;
  experiment : list experiment_entry
}.

Section Collaborators.

(** [pybamm.ParameterValues(name)]: the named parameter set. *)
Variable ParameterValues : string → result (gmap string value).

(** Python's [float] on a string: the number it reads as, if it is one. *)
Variable float_of_str : string → option float.

(** [sim.solve(..)]: a solution, or the solver's failure. *)
Variable solve : simulation → solve_args → result Solution.

(** Python's formatting of a number inside an f-string. *)
Variable format : value → string.

(** [str(e)] of an exception. *)
Variable str : exn → string.

(** [parameters.update(lfp_parameters, check_already_exists=False)] takes
    the items of a loaded set, which holds stored values, as they are, and
    adds those the updated set lacks: the union that prefers [lfp_parameters]. *)
Definition get_battery_parameters (battery_type : string)
    (degradation_enabled : bool) : result (gmap string value) :=
  set_name ← dict_lookup batteries battery_type;
  parameters ← ParameterValues set_name;
  if degradation_enabled then
    if String.eqb battery_type "NCA" then Ok parameters
    else if String.eqb battery_type "NMC" then Ok parameters
    else if String.eqb battery_type "LFP" then
      nmc_name ← dict_lookup batteries "NMC";
      parameters ← ParameterValues nmc_name;
      lfp_name ← dict_lookup batteries "LFP";
      lfp_parameters ← ParameterValues lfp_name;
      Ok (lfp_parameters ∪ parameters)
    else Ok parameters
  else Ok parameters.

(** The body of the loop over [c_rates] in [run_charging_experiments], up
    to the [Simulation] it builds: the experiment, the initial state of
    charge and the y-axis label. *)
Definition sweep_setup (mode : string) (c_rate minV maxV : value)
    : result (list experiment_entry * Z * string) :=
  if String.eqb mode "Charge" then
    rate ← add_float c_rate 0.01;
    Ok ([StepString ("Charge at " +:+ format (PFloat rate)
                     +:+ "C for 100 hours or until " +:+ format maxV +:+ " V")],
        0, "Throughput capacity [A.h]")
  else
    rate ← add_float c_rate 0.01;
    Ok ([StepString ("Discharge at " +:+ format (PFloat rate)
                     +:+ "C for 100 hours or until " +:+ format minV +:+ " V")],
        1, "Discharge capacity [A.h]").

Fixpoint sweep_loop (c_rates : list value) (mode : string)
    (parameters : gmap string value) (minV maxV : value)
    (graphs : list Series) : result (list Series) :=
  match c_rates with
  | [] => Ok graphs
  | c_rate :: c_rates' =>
      '(experiment, soc, y_axis_label) ← sweep_setup mode c_rate minV maxV;
      let sim := {| sim_model := SPM; parameter_values := parameters;
                    sim_solver := None; experiment := experiment |} in
      sol ← solve sim {| arg_solver := Some {| solver_mode := "fast";
                                               dt_max := None;
                                               max_num_steps := None |};
                         initial_soc := Some soc;
                         calc_esoh := None; save_at_cycles := None |};
      capacity ← entries (sol_entries sol) y_axis_label;
      voltage ← entries (sol_entries sol) "Voltage [V]";
      sweep_loop c_rates' mode parameters minV maxV
        (graphs ++
         [ {| name := y_axis_label; fname := None; values := capacity |};
           {| name := "Voltage [V]"; fname := Some (format c_rate +:+ "C");
              values := voltage |} ])
  end.

(** Unpacking [minV, maxV = get_voltage_limits(..)] raises a [TypeError]
    when the lookup gave [None]. *)
Definition run_charging_experiments (battery_type : string)
    (c_rates : list value) (mode : string) (parameters : gmap string value)
    : result (list group_item) :=
  let title := drop_last (capitalize mode) +:+ "ing at different C Rates" in
  '(minV, maxV) ← match get_voltage_limits battery_type with
                  | Some limits => Ok limits
                  | None => Raise TypeError
                  end;
  graphs ← sweep_loop c_rates mode parameters minV maxV [];
  Ok [Title title; Graphs graphs].

(** ** The request handler of lab 2 *)

(** [data.get(key, default)]: only a dict has it ([data] is the decoded
    body, its items have distinct keys). *)
Definition data_get (data : value) (key : string) (default : value)
    : result value :=
  match data with
  | PDict items =>
      match dict_lookup items key with
      | Ok v => Ok v
      | Raise _ => Ok default
      end
  | _ => Raise AttributeError
  end.

Definition lab2_model : model :=
  DFN [ ("particle phases", OTuple [OStr "2"; OStr "1"]);
        ("open-circuit potential",
         OTuple [OTuple [OStr "single"; OStr "current sigmoid"]; OStr "single"]);
        ("SEI", OStr "solvent-diffusion limited") ].

Definition lab2_cycle : experiment_entry :=
  StepTuple
    [ ("Discharge at 1 C for 10 hours or until 3.0 V", "1 hour");
      ("Charge at 1 C until 4.1 V", "30 minutes");
      ("Hold at 4.1 V until 50 mA", "30 minutes") ].

Definition lab2_plots : list (string * string) :=
  [ ("Total lithium in positive electrode [mol]", "Positive");
    ("Total lithium in negative electrode [mol]", "Negative");
    ("Total lithium [mol]", "Total") ].

(** What [jsonify] is given. *)
Inductive response :=
| JsonGroups (final_result : list (list group_item))
| JsonStrings (messages : list string).

(** The [try] block: [request_json] is what reading [request.json] gives. *)
Definition lab2_try (request_json : result value)
    : result (list (list group_item)) :=
  data ← request_json;
  temperature ← data_get data "Ambient temperature [K]" PNone;
  c_rates ← data_get data "C Rates" (PList [PInt 1]);
  let cycles := 3%nat in
  silicon_percent ← data_get data "Silicon Percentage" PNone;
  parameters ← ParameterValues "Chen2020_composite";
  '(parameters, updated) ←
     Ok ((lab2_overrides float_of_str ;;
          update_parameters float_of_str temperature PNone PNone silicon_percent)
           parameters);
  _ ← updated;
  let fast_solver := {| solver_mode := "safe"; dt_max := Some 3600;
                        max_num_steps := Some 1000 |} in
  let cycling_experiment := replicate cycles lab2_cycle in
  let sim := {| sim_model := lab2_model; parameter_values := parameters;
                sim_solver := Some fast_solver;
                experiment := cycling_experiment |} in
  sol ← solve sim {| arg_solver := None; initial_soc := None;
                     calc_esoh := Some false; save_at_cycles := Some 1 |};
  graphs1 ← plot_graphs_against_cycle sol 3 lab2_plots None;
  let experiment_result1 := [Title "Total Lithium in electrodes"; Graphs graphs1] in
  graphs2 ← plot_against_cycle sol 3 "Throughput capacity [A.h]" "Capacity";
  let experiment_result2 := [Title "Capacity over Cycles"; Graphs graphs2] in
  Ok [experiment_result1; experiment_result2].

(** [try: .. except Exception as e: return jsonify(["ERROR: " + str(e)])] *)
Definition simulate_lab2 (request_json : result value) : response :=
  match lab2_try request_json with
  | Ok final_result => JsonGroups final_result
  | Raise e => JsonStrings ["ERROR: " +:+ str e]
  end.

End Collaborators.

(** ** Definitions the statements use *)

(** The simulation and the solve arguments of one sweep step. *)
Definition sweep_simulation (parameters : gmap string value) (step : string)
    : simulation :=
  {| sim_model := SPM; parameter_values := parameters; sim_solver := None;
     experiment := [StepString step] |}.

Definition sweep_solve_args (soc : Z) : solve_args :=
  {| arg_solver := Some {| solver_mode := "fast"; dt_max := None;
                           max_num_steps := None |};
     initial_soc := Some soc; calc_esoh := None; save_at_cycles := None |}.

(** A solver that always fails and a formatter, to run the code on. *)
Definition failing_solver (_ : simulation) (_ : solve_args) : result Solution :=
  Raise (LibraryError "solver").

Definition digits_only (v : value) : string :=
  match v with
  | PInt 1 => "1"
  | _ => "?"
  end.

(** The [i]-th sample before the last: [i] steps from 0. *)
Definition linspace0_sample (stop : float) (num i : nat) : float :=
  let div := Z2float (Z.of_nat (num - 1)) in
  let step := (stop / div)%float in
  ((if PrimFloat.eqb step 0 then Z2float (Z.of_nat i) / div * stop
    else Z2float (Z.of_nat i) * step) + 0)%float.

(** The name the value series get: the given one, else the first variable
    the loop meets. *)
Definition y_axis_of (y_axis_name : option string) (todo : list string)
    : string :=
  match y_axis_name with
  | Some given => given
  | None => default "" (head todo)
  end.

(** The handler's own overrides followed by the merge of the request's:
    the parameter set the request solves with, when both complete. *)
Definition lab2_parameters (float_of_str : string → option float)
    (base : gmap string value) (temperature silicon_percent : value)
    : gmap string value * result () :=
  (lab2_overrides float_of_str ;;
   update_parameters float_of_str temperature PNone PNone silicon_percent) base.

Definition lab2_simulation (parameters : gmap string value) : simulation :=
  {| sim_model := lab2_model; parameter_values := parameters;
     sim_solver := Some {| solver_mode := "safe"; dt_max := Some 3600;
                           max_num_steps := Some 1000 |};
     experiment := [lab2_cycle; lab2_cycle; lab2_cycle] |}.

Definition lab2_solve_args : solve_args :=
  {| arg_solver := None; initial_soc := None;
     calc_esoh := Some false; save_at_cycles := Some 1 |}.

Definition lab2_data_get (items : list (string * value)) (key : string) : value :=
  match dict_lookup items key with
  | Ok v => v
  | Raise _ => PNone
  end.

(** ** Rounding of binary64 numbers, on integers

    [SpecFloat] rounds by shifting a mantissa right while keeping a round
    and a sticky bit; the same rounding is stated here on integers. *)

(** Round to nearest, ties to even, from the kept part [m], the first
    dropped bit [r] and whether a later dropped bit is set [s]. *)
Definition rne (m : Z) (r s : bool) : Z :=
  if r then (if s then m + 1 else if Z.even m then m else m + 1) else m.

(** [M] rounded to a multiple of [2 ^ n], in units of [2 ^ n]. *)
Definition round_shift (M n : Z) : Z :=
  if n <=? 0 then M
  else rne (M / 2 ^ n) (Z.odd (M / 2 ^ (n - 1)))
         (negb (M mod 2 ^ (n - 1) =? 0)).

(** The binary64 number nearest to [M * 2 ^ E], for [M > 0] below the
    overflow threshold. *)
Definition round_spec (sx : bool) (M E : Z) : spec_float :=
  let f := fexp prec emax (Zdigits2 M + E) in
  if f <=? E then S754_finite sx (Z.to_pos (M * 2 ^ (E - f))) f
  else
    let q := round_shift M (f - E) in
    if q =? 0 then S754_zero sx
    else if q =? 2 ^ 53 then S754_finite sx (Z.to_pos (2 ^ 52)) (f + 1)
    else S754_finite sx (Z.to_pos q) f.

(** 1.0 as a spec float. *)
Definition SF_one : spec_float := S754_finite false 4503599627370496 (-52).

(** The name of the capacity series of a sweep: the mode is compared with
    "Charge" exactly. *)
Definition sweep_label (mode : string) : string :=
  if String.eqb mode "Charge" then "Throughput capacity [A.h]"
  else "Discharge capacity [A.h]".

(** The place of a spec float that is not a NaN in the order of the
    comparisons: by class and sign first, then exponent, then mantissa. *)
Definition SF_rank (x : spec_float) : Z * Z * Z :=
  match x with
  | S754_zero _ | S754_nan => (0, 0, 0)
  | S754_infinity false => (2, 0, 0)
  | S754_infinity true => (-2, 0, 0)
  | S754_finite false m e => (1, e, Z.pos m)
  | S754_finite true m e => (-1, - e, - Z.pos m)
  end.

Definition rank_lt (a b : Z * Z * Z) : Prop :=
  a.1.1 < b.1.1
  ∨ a.1.1 = b.1.1 ∧ (a.1.2 < b.1.2 ∨ a.1.2 = b.1.2 ∧ a.2 < b.2).

Definition rank_le (a b : Z * Z * Z) : Prop :=
  a.1.1 < b.1.1
  ∨ a.1.1 = b.1.1 ∧ (a.1.2 < b.1.2 ∨ a.1.2 = b.1.2 ∧ a.2 <= b.2).

(** ** Sample data to run the code on *)

Definition example_solution : Solution :=
  {| sol_entries := ∅;
     cycles := [ {[ "V" := [1; 2; 3]%float; "I" := [0.5]%float ]};
                 {[ "V" := [4; 5; 6; 7; 8]%float; "I" := [0.25]%float ]} ] |}.

(** A base parameter set with the fields the merge reads. *)
Definition example_base : gmap string value :=
  {[ "Nominal cell capacity [A.h]" := PFloat 1;
     "Electrode height [m]" := PFloat 3;
     "Ambient temperature [K]" := PFloat 298.15;
     "Positive electrode thickness [m]" := PFloat 7.56e-05;
     "Primary: Negative electrode active material volume fraction" := PFloat 0.735;
     "Secondary: Negative electrode active material volume fraction" := PFloat 0.015 ]}.

(** A reading of strings as numbers that knows one number. *)
Definition example_float_of_str (s : string) : option float :=
  if String.eqb s "300" then Some 300%float else None.

(** A rendering of exceptions to run the handler on. *)
Definition describe (e : exn) : string :=
  match e with
  | TypeError => "TypeError"
  | ZeroDivisionError => "ZeroDivisionError"
  | OverflowError => "OverflowError"
  | AttributeError => "AttributeError"
  | KeyError key => key
  | ValueError text => text
  | LibraryError description => description
  end.

(** A solver that always answers with the same single-cycle solution. *)
Definition example_sweep_solution : Solution :=
  {| sol_entries := {[ "Throughput capacity [A.h]" := [0; 1]%float;
                       "Discharge capacity [A.h]" := [0; 2]%float;
                       "Voltage [V]" := [3; 4]%float ]};
     cycles := [] |}.

Definition constant_solver (_ : simulation) (_ : solve_args) : result Solution :=
  Ok example_sweep_solution.

(** A loader of parameter sets that knows two of them. *)
Definition example_ParameterValues (set_name : string)
    : result (gmap string value) :=
  if String.eqb set_name "Mohtat2020" then
    Ok {[ "Nominal cell capacity [A.h]" := PFloat 5;
          "Ambient temperature [K]" := PFloat 298.15 ]}
  else if String.eqb set_name "Prada2013" then
    Ok {[ "Nominal cell capacity [A.h]" := PFloat 2.3 ]}
  else Raise (LibraryError set_name).

(** A base set for the lab 2 handler: the parameters it overrides and the
    ones the merge writes. *)
Definition example_lab2_base : gmap string value :=
  {[ "Primary: Maximum concentration in negative electrode [mol.m-3]" := PFloat 28700;
     "Primary: Initial concentration in negative electrode [mol.m-3]" := PFloat 27700;
     "Primary: Negative electrode diffusivity [m2.s-1]" := PFloat 3.3e-14;
     "Secondary: Negative electrode diffusivity [m2.s-1]" := PFloat 1.67e-14;
     "Secondary: Initial concentration in negative electrode [mol.m-3]" := PFloat 276610;
     "Secondary: Maximum concentration in negative electrode [mol.m-3]" := PFloat 278000;
     "Ambient temperature [K]" := PFloat 298.15;
     "Primary: Negative electrode active material volume fraction" := PFloat 0.735;
     "Secondary: Negative electrode active material volume fraction" := PFloat 0.015 ]}.

(** A solution with the variables the lab 2 handler plots, two cycles of
    one sample each. *)
Definition example_lab2_solution : Solution :=
  {| sol_entries := ∅;
     cycles :=
       [ {[ "Total lithium in positive electrode [mol]" := [1]%float;
            "Total lithium in negative electrode [mol]" := [2]%float;
            "Total lithium [mol]" := [3]%float;
            "Throughput capacity [A.h]" := [0]%float ]};
         {[ "Total lithium in positive electrode [mol]" := [1.5]%float;
            "Total lithium in negative electrode [mol]" := [1.5]%float;
            "Total lithium [mol]" := [3]%float;
            "Throughput capacity [A.h]" := [5]%float ]} ] |}.

Definition example_lab2_solver (_ : simulation) (_ : solve_args)
    : result Solution :=
  Ok example_lab2_solution.

(** * Properties *)

(** ** Helper lemmas on the error monad *)

Lemma bind_Ok {A B} (a : A) (k : A → result B) : Ok a ≫= k = k a.
Proof. reflexivity. Qed.

Lemma bind_Raise {A B} (e : exn) (k : A → result B) : Raise e ≫= k = Raise e.
Proof. reflexivity. Qed.

Lemma bind_Ok_inv {A B} (r : result A) (k : A → result B) (b : B) :
  r ≫= k = Ok b → ∃ a, r = Ok a ∧ k a = Ok b.
Proof. destruct r as [a|e]; [eauto | discriminate]. Qed.

(** ** Voltage limits and the rate sweep *)

Lemma get_voltage_limits_None (battery_type : string) :
  battery_type ≠ "LFP" → battery_type ≠ "NMC" → battery_type ≠ "NCA" →
  get_voltage_limits battery_type = None.
Proof.
  intros H1 H2 H3. unfold get_voltage_limits.
  apply String.eqb_neq in H1, H2, H3. by rewrite H1, H2, H3.
Qed.

Lemma get_voltage_limits_Some (battery_type : string) (limits : value * value) :
  get_voltage_limits battery_type = Some limits →
  battery_type = "LFP" ∨ battery_type = "NMC" ∨ battery_type = "NCA".
Proof.
  unfold get_voltage_limits.
  destruct (String.eqb_spec battery_type "LFP"); [auto|].
  destruct (String.eqb_spec battery_type "NMC"); [auto|].
  destruct (String.eqb_spec battery_type "NCA"); [auto|discriminate].
Qed.

Section RateSweep.

Variable solve : simulation → solve_args → result Solution.
Variable format : value → string.

Lemma run_charging_experiments_no_limits battery_type c_rates mode parameters :
  get_voltage_limits battery_type = None →
  run_charging_experiments solve format battery_type c_rates mode parameters
  = Raise TypeError.
Proof. intros H. unfold run_charging_experiments. by rewrite H. Qed.

Lemma run_charging_experiments_limits battery_type c_rates mode parameters
    minV maxV :
  get_voltage_limits battery_type = Some (minV, maxV) →
  run_charging_experiments solve format battery_type c_rates mode parameters
  = (graphs ← sweep_loop solve format c_rates mode parameters minV maxV [];
     Ok [ Title (drop_last (capitalize mode) +:+ "ing at different C Rates");
          Graphs graphs ]).
Proof. intros H. unfold run_charging_experiments. by rewrite H. Qed.

Lemma sweep_loop_first_failure c_rate c_rates mode parameters minV maxV graphs
    step soc label e :
  sweep_setup format mode c_rate minV maxV = Ok ([StepString step], soc, label) →
  solve (sweep_simulation parameters step) (sweep_solve_args soc) = Raise e →
  sweep_loop solve format (c_rate :: c_rates) mode parameters minV maxV graphs
  = Raise e.
Proof.
  intros Hsetup Hsolve. simpl. rewrite Hsetup. simpl.
  unfold sweep_simulation, sweep_solve_args in Hsolve. by rewrite Hsolve.
Qed.

End RateSweep.

(** C3: the voltage limits are the fixed table LFP (2.5, 3.65), NMC (3, 4.2),
    NCA (2.5, 4.3).  A discharge step for LFP is built to stop at 2.5 V and a
    charge step for NMC at 4.2 V, and this is the experiment the solver is
    given (its failure on it is the sweep's failure).  For every other
    chemistry name the lookup yields no limits and the sweep fails, whatever
    the rates, before any simulation (the spec's [NoVoltageLimits]; the
    Python exception is the [TypeError] of unpacking [None]). *)
Theorem voltage_limits_fixed_lookup :
  get_voltage_limits "LFP" = Some (PFloat 2.5, PFloat 3.65)
  ∧ get_voltage_limits "NMC" = Some (PInt 3, PFloat 4.2)
  ∧ to_float (NInt 3) = Ok 3%float
  ∧ get_voltage_limits "NCA" = Some (PFloat 2.5, PFloat 4.3)
  ∧ (∀ solve format c_rate c_rates rate parameters,
       add_float c_rate 0.01 = Ok rate →
       let discharge_lfp :=
         "Discharge at " +:+ format (PFloat rate)
         +:+ "C for 100 hours or until " +:+ format (PFloat 2.5) +:+ " V" in
       let charge_nmc :=
         "Charge at " +:+ format (PFloat rate)
         +:+ "C for 100 hours or until " +:+ format (PFloat 4.2) +:+ " V" in
       sweep_setup format "Discharge" c_rate (PFloat 2.5) (PFloat 3.65)
       = Ok ([StepString discharge_lfp], 1, "Discharge capacity [A.h]")
       ∧ sweep_setup format "Charge" c_rate (PInt 3) (PFloat 4.2)
         = Ok ([StepString charge_nmc], 0, "Throughput capacity [A.h]")
       ∧ (∀ e, solve (sweep_simulation parameters discharge_lfp)
                 (sweep_solve_args 1) = Raise e →
               run_charging_experiments solve format "LFP" (c_rate :: c_rates)
                 "Discharge" parameters = Raise e)
       ∧ (∀ e, solve (sweep_simulation parameters charge_nmc)
                 (sweep_solve_args 0) = Raise e →
               run_charging_experiments solve format "NMC" (c_rate :: c_rates)
                 "Charge" parameters = Raise e))
  ∧ (∀ battery_type,
       battery_type ≠ "LFP" → battery_type ≠ "NMC" → battery_type ≠ "NCA" →
       get_voltage_limits battery_type = None
       ∧ ∀ solve format c_rates mode parameters,
           run_charging_experiments solve format battery_type c_rates mode
             parameters = Raise TypeError).
Proof.
  repeat split; try reflexivity.
  - unfold sweep_setup. simpl. by rewrite H.
  - unfold sweep_setup. simpl. by rewrite H.
  - intros e He.
    rewrite (run_charging_experiments_limits _ _ _ _ _ _ (PFloat 2.5) (PFloat 3.65))
      by reflexivity.
    erewrite sweep_loop_first_failure; [done| |exact He].
    unfold sweep_setup. simpl. by rewrite H.
  - intros e He.
    rewrite (run_charging_experiments_limits _ _ _ _ _ _ (PInt 3) (PFloat 4.2))
      by reflexivity.
    erewrite sweep_loop_first_failure; [done| |exact He].
    unfold sweep_setup. simpl. by rewrite H.
  - by apply get_voltage_limits_None.
  - intros. apply run_charging_experiments_no_limits.
    by apply get_voltage_limits_None.
Qed.

Lemma voltage_limits_fixed_lookup_witness :
  add_float (PInt 1) 0.01 = Ok 1.01%float
  ∧ sweep_setup digits_only "Discharge" (PInt 1) (PFloat 2.5) (PFloat 3.65)
    = Ok ([StepString "Discharge at ?C for 100 hours or until ? V"], 1,
          "Discharge capacity [A.h]")
  ∧ run_charging_experiments failing_solver digits_only "LFP" [PInt 1]
      "Discharge" ∅ = Raise (LibraryError "solver")
  ∧ run_charging_experiments failing_solver digits_only "LG M50" [PInt 1]
      "Discharge" ∅ = Raise TypeError.
Proof.
  destruct voltage_limits_fixed_lookup as (_ & _ & _ & _ & Hsweep & Hother).
  assert (Hrate : add_float (PInt 1) 0.01 = Ok 1.01%float)
    by (vm_compute; reflexivity).
  destruct (Hsweep failing_solver digits_only (PInt 1) [] _ ∅ Hrate)
    as (Hd & _ & Hfail & _).
  destruct (Hother "LG M50") as [_ Hraise]; [discriminate..|].
  split; [exact Hrate|]. split; [exact Hd|]. split.
  - apply Hfail. reflexivity.
  - apply Hraise.
Defined.

(** C4 as stated fails: with no rates the loop body never runs and the sweep
    returns its title and an empty list of graphs. *)
Lemma empty_rate_list_returns_normally :
  run_charging_experiments failing_solver digits_only "NMC" [] "Charge" ∅
  = Ok [Title "Charging at different C Rates"; Graphs []]
  ∧ ∀ e, run_charging_experiments failing_solver digits_only "NMC" [] "Charge" ∅
         ≠ Raise e.
Proof. split; [reflexivity | intros e; discriminate]. Qed.

(** C4 (amended): asked to sweep an empty list of C-rates for a chemistry with
    voltage limits, the builder returns normally: the title and an empty list
    of graphs, and the solver is never consulted. *)
Theorem empty_rate_list_empty_graphs :
  ∀ solve format battery_type mode parameters limits,
    get_voltage_limits battery_type = Some limits →
    run_charging_experiments solve format battery_type [] mode parameters
    = Ok [ Title (drop_last (capitalize mode) +:+ "ing at different C Rates");
           Graphs [] ].
Proof.
  intros solve format battery_type mode parameters [minV maxV] H.
  unfold run_charging_experiments. by rewrite H.
Qed.

Lemma empty_rate_list_empty_graphs_witness :
  run_charging_experiments failing_solver digits_only "LFP" [] "Discharge" ∅
  = Ok [Title "Discharging at different C Rates"; Graphs []].
Proof.
  apply (empty_rate_list_empty_graphs failing_solver digits_only "LFP"
           "Discharge" ∅ (PFloat 2.5, PFloat 3.65)).
  reflexivity.
Defined.

(** C10: the chemistries with voltage limits are LFP, NMC and NCA, exactly;
    each of them has a base parameter set and a rate sweep can be built for
    it.  The converse fails: LG M50, Silicon and LFPBackup have a parameter
    set but no limits, so for each supported name outside LFP, NMC, NCA the
    lookup gives nothing and no rate sweep can be built. *)
Theorem limits_strictly_inside_batteries :
  batteries.*1 = ["NMC"; "NCA"; "LFP"; "LG M50"; "Silicon"; "LFPBackup"]
  ∧ (∀ battery_type,
       is_Some (get_voltage_limits battery_type)
       ↔ battery_type ∈ ["LFP"; "NMC"; "NCA"])
  ∧ (∀ battery_type,
       battery_type ∈ ["LFP"; "NMC"; "NCA"] →
       battery_type ∈ batteries.*1
       ∧ (∃ set_name, dict_lookup batteries battery_type = Ok set_name)
       ∧ ∀ solve format mode parameters,
           ∃ groups,
             run_charging_experiments solve format battery_type [] mode
               parameters = Ok groups)
  ∧ (∀ battery_type limits,
       get_voltage_limits battery_type = Some limits →
       battery_type ∈ batteries.*1)
  ∧ (∀ battery_type,
       battery_type ∈ batteries.*1 →
       battery_type ≠ "LFP" → battery_type ≠ "NMC" → battery_type ≠ "NCA" →
       (∃ set_name, dict_lookup batteries battery_type = Ok set_name)
       ∧ get_voltage_limits battery_type = None
       ∧ ∀ solve format c_rates mode parameters,
           run_charging_experiments solve format battery_type c_rates mode
             parameters = Raise TypeError)
  ∧ (∃ battery_type,
       battery_type ∈ batteries.*1 ∧ get_voltage_limits battery_type = None).
Proof.
  split; [reflexivity|]. split; [|split; [|split; [|split]]].
  - intros battery_type. rewrite !elem_of_cons, elem_of_nil. split.
    + intros [limits H].
      apply get_voltage_limits_Some in H as [-> | [-> | ->]]; auto.
    + intros [-> | [-> | [-> | []]]]; by eexists.
  - intros battery_type. rewrite !elem_of_cons, elem_of_nil.
    intros [-> | [-> | [-> | []]]].
    all: split; [simpl; rewrite !elem_of_cons; auto 10|].
    all: split; [by eexists|].
    all: intros solve format mode parameters; by eexists.
  - intros battery_type limits H.
    apply get_voltage_limits_Some in H as [-> | [-> | ->]];
      simpl; rewrite !elem_of_cons; auto 10.
  - intros battery_type Hin H1 H2 H3. split; [|split].
    + simpl in Hin. rewrite !elem_of_cons in Hin.
      destruct Hin as [-> | [-> | [-> | [-> | [-> | [-> | Hin]]]]]];
        try (eexists; reflexivity); try done.
      by apply elem_of_nil in Hin.
    + by apply get_voltage_limits_None.
    + intros. apply run_charging_experiments_no_limits.
      by apply get_voltage_limits_None.
  - exists "LG M50". split; [simpl; rewrite !elem_of_cons; auto 10 | reflexivity].
Qed.

Lemma limits_strictly_inside_batteries_witness :
  "NCA" ∈ batteries.*1
  ∧ get_voltage_limits "NCA" = Some (PFloat 2.5, PFloat 4.3)
  ∧ dict_lookup batteries "Silicon" = Ok "Chen2020_composite"
  ∧ get_voltage_limits "Silicon" = None
  ∧ run_charging_experiments failing_solver digits_only "Silicon" [PInt 1]
      "Charge" ∅ = Raise TypeError.
Proof.
  destruct limits_strictly_inside_batteries as (_ & _ & _ & Hsub & Hout & _).
  split.
  - apply (Hsub "NCA" (PFloat 2.5, PFloat 4.3)). reflexivity.
  - split; [reflexivity|].
    destruct (Hout "Silicon") as (_ & Hnone & Hraise);
      [simpl; rewrite !elem_of_cons; auto 10 | discriminate..|].
    split; [reflexivity|]. split; [exact Hnone | apply Hraise].
Defined.

(** ** The series reducer *)

Lemma flatten_cycles_concat (cycles : list (gmap string (list float)))
    variable_name samples :
  Forall2 (λ cycle l, cycle !! variable_name = Some l) cycles samples →
  ∀ function,
    flatten_cycles cycles variable_name function = Ok (function ++ concat samples).
Proof.
  induction 1 as [|cycle l cycles samples Hl _ IH]; intros function; simpl.
  - by rewrite app_nil_r.
  - unfold entries. rewrite Hl. simpl. rewrite IH. by rewrite app_assoc.
Qed.

Lemma flatten_cycles_total (cycles : list (gmap string (list float)))
    variable_name :
  Forall (λ cycle, is_Some (cycle !! variable_name)) cycles →
  ∃ samples, Forall2 (λ cycle l, cycle !! variable_name = Some l) cycles samples.
Proof.
  induction 1 as [|cycle cycles [l Hl] _ [samples IH]].
  - exists []. constructor.
  - exists (l :: samples). by constructor.
Qed.

Lemma sub_zero (x : float) : (x - 0)%float = x.
Proof.
  apply Prim2SF_inj. rewrite sub_spec.
  change (Prim2SF 0) with (S754_zero false).
  by destruct (Prim2SF x) as [[]|[]| |[] m e].
Qed.

Lemma length_linspace0 stop num : length (linspace0 stop num) = num.
Proof.
  destruct num as [|[|div]]; [done..|].
  unfold linspace0.
  rewrite length_app, length_map, length_seq. simpl. lia.
Qed.

Lemma last_linspace0 stop num :
  (2 ≤ num)%nat → last (linspace0 stop num) = Some stop.
Proof.
  destruct num as [|[|div]]; [lia..|]. intros _.
  unfold linspace0. apply last_snoc.
Qed.

Lemma lookup_linspace0 stop num i :
  (i + 1 < num)%nat →
  linspace0 stop num !! i = Some (linspace0_sample stop num i).
Proof.
  destruct num as [|[|div]]; [lia..|]. intros Hi.
  unfold linspace0, linspace0_sample.
  rewrite lookup_app_l by (rewrite length_map, length_seq; lia).
  rewrite list_lookup_fmap, lookup_seq_lt by lia.
  simpl. by rewrite sub_zero.
Qed.

(** With a finite step the first sample is 0. *)
Lemma first_sample_zero (step : float) s m e :
  Prim2SF step = S754_finite s m e →
  (Z2float 0 * step + 0)%float = 0%float.
Proof.
  intros Hstep. apply Prim2SF_inj.
  rewrite add_spec, mul_spec, Hstep.
  change (Prim2SF (Z2float 0)) with (S754_zero false).
  change (Prim2SF 0) with (S754_zero false).
  by destruct s.
Qed.

(** The one sample of an axis of length 1, for a count that is a number. *)
Lemma single_sample_zero (stop : float) :
  (∃ s m e, Prim2SF stop = S754_finite s m e)
  ∨ (∃ s, Prim2SF stop = S754_zero s) →
  (0 * stop + 0)%float = 0%float.
Proof.
  intros Hstop. apply Prim2SF_inj. rewrite add_spec, mul_spec.
  change (Prim2SF 0) with (S754_zero false).
  destruct Hstop as [(s & m & e & ->) | (s & ->)]; by destruct s.
Qed.

Lemma linspace0_single stop : linspace0 stop 1 = [(0 * stop + 0)%float].
Proof. unfold linspace0. by rewrite sub_zero. Qed.

(** C1 as stated fails on a solution with a single sample: the axis is the
    one sample 0 and does not reach the requested cycle count.  It fails too
    for a variable the solution does not have, where no series is made. *)
Lemma single_sample_axis_stays_at_zero :
  let solution :=
    {| sol_entries := ∅; cycles := [ {[ "V" := [4.2]%float ]} ] |} in
  plot_against_cycle solution 3 "V" "f"
  = Ok [ {| name := "Cycle"; fname := None; values := [0]%float |};
         {| name := "V"; fname := Some "f"; values := [4.2]%float |} ]
  ∧ last [0%float] = Some 0%float
  ∧ PrimFloat.eqb 0 3 = false
  ∧ plot_against_cycle solution 3 "W" "f" = Raise (KeyError "W").
Proof. repeat split; vm_compute; reflexivity. Qed.

(** C1 (amended): when every cycle has the variable, the value series is the
    concatenation of its samples over the cycles in cycle order, so each
    cycle's samples follow those of the earlier cycles (sample counts 3 and 5
    give 8 samples, the first 3 from cycle 1 and the next 5 from cycle 2).
    The "Cycle" axis has the same length.  With two samples or more it is
    linearly spaced from 0 to the cycle count: sample [i] is [i] steps of
    [count / (length - 1)] from 0 (it is 0 for [i = 0] and a finite non-zero
    step) and the last sample is the count.  With a single sample the axis
    is [0 * count + 0] alone, which is 0 for a count that is a number, and
    with no sample it is empty. *)
Theorem plot_against_cycle_flattens :
  ∀ solution number_of_cycles variable_name func_name samples,
    Forall2 (λ cycle l, cycle !! variable_name = Some l)
      (cycles solution) samples →
    ∃ cycles_array,
      plot_against_cycle solution number_of_cycles variable_name func_name
      = Ok [ {| name := "Cycle"; fname := None; values := cycles_array |};
             {| name := variable_name; fname := Some func_name;
                values := concat samples |} ]
      ∧ length cycles_array = length (concat samples)
      ∧ (∀ k l, samples !! k = Some l →
           take (length l) (drop (length (concat (take k samples)))
                              (concat samples)) = l)
      ∧ (∀ l1 l2, samples = [l1; l2] → length l1 = 3%nat → length l2 = 5%nat →
           length (concat samples) = 8%nat
           ∧ take 3 (concat samples) = l1
           ∧ drop 3 (concat samples) = l2
           ∧ length cycles_array = 8%nat)
      ∧ (∀ i, (i + 1 < length cycles_array)%nat →
           cycles_array !! i
           = Some (linspace0_sample number_of_cycles (length cycles_array) i))
      ∧ (∀ s m e,
           Prim2SF (number_of_cycles
                    / Z2float (Z.of_nat (length cycles_array - 1)))
           = S754_finite s m e →
           (2 ≤ length cycles_array)%nat →
           cycles_array !! 0%nat = Some 0%float)
      ∧ ((2 ≤ length cycles_array)%nat →
           last cycles_array = Some number_of_cycles)
      ∧ (length (concat samples) = 1%nat →
           cycles_array = [(0 * number_of_cycles + 0)%float]
           ∧ ((∃ s m e, Prim2SF number_of_cycles = S754_finite s m e)
              ∨ (∃ s, Prim2SF number_of_cycles = S754_zero s) →
              cycles_array = [0%float]))
      ∧ (length (concat samples) = 0%nat → cycles_array = []).
Proof.
  intros solution number_of_cycles variable_name func_name samples Hsamples.
  exists (linspace0 number_of_cycles (length (concat samples))).
  assert (Hlen : length (linspace0 number_of_cycles (length (concat samples)))
                 = length (concat samples)) by apply length_linspace0.
  split; [|split; [|split; [|split; [|split; [|split; [|split; [|split]]]]]]].
  - unfold plot_against_cycle.
    by rewrite (flatten_cycles_concat _ _ samples Hsamples).
  - exact Hlen.
  - intros k l Hk.
    rewrite <- (take_drop_middle samples k l Hk) at 2.
    rewrite concat_app. simpl.
    rewrite drop_app_length. apply take_app_length.
  - intros l1 l2 -> H1 H2. rewrite Hlen.
    replace (concat [l1; l2]) with (l1 ++ l2) by (simpl; by rewrite app_nil_r).
    rewrite length_app, H1, H2.
    repeat split.
    + rewrite <- H1. apply take_app_length.
    + rewrite <- H1. apply drop_app_length.
  - intros i Hi. rewrite Hlen in *. by apply lookup_linspace0.
  - intros s m e Hstep Hge. rewrite Hlen in *.
    rewrite lookup_linspace0 by lia. unfold linspace0_sample.
    assert (PrimFloat.eqb (number_of_cycles
              / Z2float (Z.of_nat (length (concat samples) - 1))) 0 = false)
      as ->.
    { rewrite FloatAxioms.eqb_spec, Hstep. change (Prim2SF 0) with (S754_zero false).
      by destruct s. }
    f_equal. by eapply first_sample_zero.
  - intros Hge. rewrite Hlen in Hge. by apply last_linspace0.
  - intros ->. rewrite linspace0_single. split; [done|].
    intros Hcount. by rewrite single_sample_zero.
  - by intros ->.
Qed.

Lemma plot_against_cycle_flattens_witness :
  ∃ cycles_array,
    plot_against_cycle example_solution 3 "V" "f"
    = Ok [ {| name := "Cycle"; fname := None; values := cycles_array |};
           {| name := "V"; fname := Some "f";
              values := [1; 2; 3; 4; 5; 6; 7; 8]%float |} ]
    ∧ length cycles_array = 8%nat
    ∧ cycles_array !! 0%nat = Some 0%float
    ∧ cycles_array !! 1%nat = Some (1 * (3 / 7))%float
    ∧ last cycles_array = Some 3%float.
Proof.
  assert (Hsamples :
    Forall2 (λ (cycle : gmap string (list float)) l, cycle !! "V" = Some l)
      (cycles example_solution) [[1; 2; 3]; [4; 5; 6; 7; 8]]%float)
    by (repeat constructor).
  destruct (plot_against_cycle_flattens example_solution 3 "V" "f" _ Hsamples)
    as (cycles_array & Hrun & Hlen & _ & _ & Hsample & Hfirst & Hlast & _).
  exists cycles_array. simpl in Hlen.
  split; [exact Hrun|]. split; [exact Hlen|]. split; [|split].
  - rewrite Hlen in Hfirst. eapply Hfirst; [vm_compute; reflexivity | lia].
  - rewrite Hsample by lia. rewrite Hlen. vm_compute. reflexivity.
  - apply Hlast. lia.
Defined.

Lemma dict_lookup_key {A} (d : list (string * A)) (key : string) :
  key ∈ d.*1 → ∃ v, dict_lookup d key = Ok v.
Proof.
  induction d as [|[k v] d IH]; simpl; intros Hin.
  - by apply elem_of_nil in Hin.
  - destruct (String.eqb_spec k key) as [->|Hne]; [eauto|].
    apply elem_of_cons in Hin as [->|Hin]; [done | auto].
Qed.

Lemma plot_graphs_loop_spec solution number_of_cycles variables :
  ∀ todo y_axis_name graphs,
    Forall (λ v, v ∈ variables.*1
                 ∧ Forall (λ cycle : gmap string (list float), is_Some (cycle !! v))
                     (cycles solution)) todo →
    ∃ out,
      plot_graphs_loop solution number_of_cycles variables todo y_axis_name graphs
      = Ok (graphs ++ out)
      ∧ length out = (2 * length todo)%nat
      ∧ ∀ k v, todo !! k = Some v →
          ∃ function display,
            flatten_cycles (cycles solution) v [] = Ok function
            ∧ dict_lookup variables v = Ok display
            ∧ out !! (2 * k)%nat
              = Some {| name := "Cycle"; fname := None;
                        values := linspace0 number_of_cycles (length function) |}
            ∧ out !! (2 * k + 1)%nat
              = Some {| name := y_axis_of y_axis_name todo;
                        fname := Some display; values := function |}.
Proof.
  induction todo as [|v todo IH]; intros y_axis_name graphs Hall.
  - exists []. simpl. rewrite app_nil_r. split; [done|]. split; [done|].
    intros k v Hk. by rewrite lookup_nil in Hk.
  - apply Forall_cons in Hall as [[Hkey Hcycles] Hall].
    destruct (flatten_cycles_total _ _ Hcycles) as [samples Hsamples].
    pose proof (flatten_cycles_concat _ _ _ Hsamples []) as Hflat.
    destruct (dict_lookup_key _ _ Hkey) as [display Hdisplay].
    set (y := match y_axis_name with None => v | Some given => given end).
    set (new := [ {| name := "Cycle"; fname := None;
                     values := linspace0 number_of_cycles
                                 (length (concat samples)) |};
                  {| name := y; fname := Some display;
                     values := concat samples |} ]).
    destruct (IH (Some y) (graphs ++ new) Hall) as (out & Hrun & Hlen & Hout).
    exists (new ++ out). split; [|split].
    + simpl. rewrite Hflat. simpl. rewrite Hdisplay. simpl.
      fold y. fold new. rewrite Hrun. by rewrite <- app_assoc.
    + rewrite length_app, Hlen. simpl. lia.
    + assert (Hy : y_axis_of y_axis_name (v :: todo) = y)
        by (unfold y_axis_of, y; by destruct y_axis_name).
      intros [|k] v' Hk; simpl in Hk.
      * injection Hk as <-. exists (concat samples), display.
        rewrite Hy. by repeat split.
      * destruct (Hout k v' Hk) as (function & display' & H1 & H2 & H3 & H4).
        exists function, display'. rewrite Hy.
        split; [done|]. split; [done|]. split.
        -- replace (2 * S k)%nat with (length new + 2 * k)%nat by (simpl; lia).
           by rewrite lookup_app_r, Nat.add_comm, Nat.add_sub by lia.
        -- replace (2 * S k + 1)%nat with (length new + (2 * k + 1))%nat
             by (simpl; lia).
           by rewrite lookup_app_r, Nat.add_comm, Nat.add_sub by lia.
Qed.

(** C8: a solution with no cycles gives no error: both the value series and
    the "Cycle" axis of [plot_against_cycle] are empty, and so is every
    series of the multi-variable reducer. *)
Theorem empty_solution_empty_series :
  ∀ ents number_of_cycles variable_name func_name variables y_axis_name,
    let solution := {| sol_entries := ents; cycles := [] |} in
    plot_against_cycle solution number_of_cycles variable_name func_name
    = Ok [ {| name := "Cycle"; fname := None; values := [] |};
           {| name := variable_name; fname := Some func_name; values := [] |} ]
    ∧ ∃ graphs,
        plot_graphs_against_cycle solution number_of_cycles variables
          y_axis_name = Ok graphs
        ∧ length graphs = (2 * length variables)%nat
        ∧ Forall (λ series, values series = []) graphs.
Proof.
  intros ents number_of_cycles variable_name func_name variables y_axis_name
    solution.
  split; [reflexivity|].
  destruct (plot_graphs_loop_spec solution number_of_cycles variables
              (variables.*1) y_axis_name [])
    as (graphs & Hrun & Hlen & Hgraphs).
  { apply Forall_forall. intros v Hv. split; [done | constructor]. }
  exists graphs. split; [exact Hrun|].
  rewrite length_fmap in Hlen. split; [exact Hlen|].
  apply Forall_lookup. intros i series Hi.
  assert (Hlt : (i < 2 * length variables)%nat)
    by (rewrite <- Hlen; by eapply lookup_lt_Some).
  assert (Hk : (i / 2 < length (variables.*1))%nat)
    by (rewrite length_fmap; apply Nat.Div0.div_lt_upper_bound; lia).
  apply lookup_lt_is_Some_2 in Hk as [v Hv].
  destruct (Hgraphs _ _ Hv) as (function & display & Hflat & _ & Heven & Hodd).
  injection Hflat as <-.
  destruct (Nat.Even_or_Odd i) as [[j ->]|[j ->]].
  - replace (2 * j / 2)%nat with j in Heven
      by (symmetry; rewrite Nat.mul_comm; apply Nat.div_mul; lia).
    rewrite Heven in Hi. by injection Hi as <-.
  - replace ((2 * j + 1) / 2)%nat with j in Hodd.
    + rewrite Hodd in Hi. by injection Hi as <-.
    + symmetry. rewrite Nat.mul_comm, Nat.div_add_l by lia.
      by rewrite Nat.add_0_r.
Qed.

(** C9: with no y-axis name given, the name is taken from the first variable
    and kept, so when the solution has every requested variable, graph
    [2k + 1] (the value series of the [k]-th variable) has the first
    variable's name, the [k]-th variable's own display name as ["fname"] and
    its own samples; graph [2k] is its "Cycle" axis. *)
Theorem y_axis_name_captured_once :
  ∀ solution number_of_cycles variables first,
    head (variables.*1) = Some first →
    Forall (λ v, Forall (λ cycle : gmap string (list float),
                           is_Some (cycle !! v)) (cycles solution))
      (variables.*1) →
    ∃ graphs,
      plot_graphs_against_cycle solution number_of_cycles variables None
      = Ok graphs
      ∧ length graphs = (2 * length variables)%nat
      ∧ ∀ k v, variables.*1 !! k = Some v →
          ∃ function display,
            flatten_cycles (cycles solution) v [] = Ok function
            ∧ dict_lookup variables v = Ok display
            ∧ graphs !! (2 * k)%nat
              = Some {| name := "Cycle"; fname := None;
                        values := linspace0 number_of_cycles (length function) |}
            ∧ graphs !! (2 * k + 1)%nat
              = Some {| name := first; fname := Some display;
                        values := function |}.
Proof.
  intros solution number_of_cycles variables first Hfirst Hall.
  destruct (plot_graphs_loop_spec solution number_of_cycles variables
              (variables.*1) None [])
    as (graphs & Hrun & Hlen & Hgraphs).
  { apply Forall_forall. intros v Hv. split; [done|].
    by eapply Forall_forall in Hall. }
  exists graphs. split; [exact Hrun|].
  rewrite length_fmap in Hlen. split; [exact Hlen|].
  intros k v Hk. destruct (Hgraphs k v Hk) as (function & display & H).
  exists function, display.
  unfold y_axis_of in H. by rewrite Hfirst in H.
Qed.

Lemma y_axis_name_captured_once_witness :
  ∃ graphs,
    plot_graphs_against_cycle example_solution 3
      [("V", "Volts"); ("I", "Amps")] None = Ok graphs
    ∧ graphs !! 1%nat
      = Some {| name := "V"; fname := Some "Volts";
                values := [1; 2; 3; 4; 5; 6; 7; 8]%float |}
    ∧ graphs !! 3%nat
      = Some {| name := "V"; fname := Some "Amps";
                values := [0.5; 0.25]%float |}.
Proof.
  assert (Hall :
    Forall (λ v, Forall (λ cycle : gmap string (list float),
                           is_Some (cycle !! v)) (cycles example_solution))
      [("V", "Volts"); ("I", "Amps")].*1)
    by (repeat constructor; eexists; reflexivity).
  destruct (y_axis_name_captured_once example_solution 3
              [("V", "Volts"); ("I", "Amps")] "V" eq_refl Hall)
    as (graphs & Hrun & _ & Hgraphs).
  exists graphs. split; [exact Hrun|]. split.
  - destruct (Hgraphs 0%nat "V" eq_refl) as (function & display & Hf & Hd & _ & Hv).
    injection Hf as <-. injection Hd as <-. exact Hv.
  - destruct (Hgraphs 1%nat "I" eq_refl) as (function & display & Hf & Hd & _ & Hv).
    injection Hf as <-. injection Hd as <-. exact Hv.
Defined.

(** ** Merging overrides into the parameter store *)

Lemma and_ne_zero_truthy (x : value) : and_ne_zero x = truthy x.
Proof. unfold and_ne_zero. destruct x as [| [] | | | | |]; simpl; try done.
  - by destruct (negb (z =? 0)).
  - by destruct (negb (PrimFloat.eqb f 0)).
  - by destruct (negb (String.eqb s "")).
  - by destruct (negb (Nat.eqb (length l) 0)).
  - by destruct (negb (Nat.eqb (length items) 0)).
Qed.

Lemma float_eqb_zero (f : float) :
  PrimFloat.eqb f 0 = true ↔ f = 0%float ∨ f = (-0)%float.
Proof.
  rewrite FloatAxioms.eqb_spec. change (Prim2SF 0) with (S754_zero false).
  split.
  - intros H. rewrite <- (SF2Prim_Prim2SF f).
    destruct (Prim2SF f) as [[]|[]| |[] m e]; try discriminate H; auto.
  - by intros [-> | ->].
Qed.

Lemma truthy_false (x : value) :
  truthy x = false ↔
  x = PNone ∨ x = PBool false ∨ x = PInt 0 ∨ x = PFloat 0 ∨ x = PFloat (-0)
  ∨ x = PStr "" ∨ x = PList [] ∨ x = PDict [].
Proof.
  split.
  - destruct x as [| [] | z | f | s | l | items]; simpl; intros H;
      try discriminate H; auto.
    + apply negb_false_iff, Z.eqb_eq in H as ->. auto.
    + apply negb_false_iff, float_eqb_zero in H as [-> | ->]; auto 10.
    + apply negb_false_iff, String.eqb_eq in H as ->. auto 10.
    + destruct l; [auto 10 | discriminate H].
    + destruct items; [auto 10 | discriminate H].
  - intros [-> | [-> | [-> | [-> | [-> | [-> | [-> | ->]]]]]]]; reflexivity.
Qed.

Lemma truediv_floats (a b : float) :
  PrimFloat.eqb b 0 = false →
  truediv (PFloat a) (PFloat b) = Ok (a / b)%float.
Proof. intros H. unfold truediv. simpl. by rewrite H. Qed.

Lemma truediv_float_zero (a b : float) :
  PrimFloat.eqb b 0 = true →
  truediv (PFloat a) (PFloat b) = Raise ZeroDivisionError.
Proof. intros H. unfold truediv. simpl. by rewrite H. Qed.

Section MergeSteps.

Variable float_of_str : string → option float.

Lemma stored_not_str (v : value) :
  (∀ s, v ≠ PStr s) → Store.stored float_of_str v = Ok v.
Proof. intros H. destruct v; try reflexivity. by destruct (H s). Qed.

Lemma stored_str (s : string) :
  s ≠ "[input]" →
  Store.stored float_of_str (PStr s)
  = match float_of_str s with
    | Some f => Ok (PFloat f)
    | None => Raise (ValueError s)
    end.
Proof. intros H. simpl. apply String.eqb_neq in H. by rewrite H. Qed.

Lemma update_item_missing key v (p : gmap string value) :
  p !! key = None →
  update_item float_of_str key v p = (p, Raise (KeyError key)).
Proof.
  intros H. unfold update_item, Store.update.
  by rewrite bool_decide_eq_true_2.
Qed.

Lemma update_item_present key v (p : gmap string value) :
  is_Some (p !! key) →
  update_item float_of_str key v p
  = match Store.stored float_of_str v with
    | Ok v' => (<[key := v']> p, Ok ())
    | Raise e => (p, Raise e)
    end.
Proof.
  intros [x H]. unfold update_item, Store.update.
  rewrite bool_decide_eq_false_2; [done|]. by rewrite H.
Qed.

Ltac run_store :=
  unfold update_parameters, Store.when, mbind, store_bind, Store.bind,
    Store.get, Store.lift, mret, store_ret, Store.ret;
  rewrite ?and_ne_zero_truthy.

(** The merge is its four steps in turn; a step that raises ends it. *)
Lemma merge_after_temperature temperature capacity thickness silicon base :
  update_parameters float_of_str temperature capacity thickness silicon base
  = match update_parameters float_of_str temperature PNone PNone PNone base with
    | (p, Ok _) =>
        update_parameters float_of_str PNone capacity thickness silicon p
    | (p, Raise e) => (p, Raise e)
    end.
Proof.
  run_store. simpl.
  destruct (truthy temperature); [|done].
  by destruct (update_item _ _ _ _) as [p [[]|e]].
Qed.

Lemma merge_after_capacity capacity thickness silicon base :
  update_parameters float_of_str PNone capacity thickness silicon base
  = match update_parameters float_of_str PNone capacity PNone PNone base with
    | (p, Ok _) =>
        update_parameters float_of_str PNone PNone thickness silicon p
    | (p, Raise e) => (p, Raise e)
    end.
Proof.
  run_store. simpl.
  by destruct (if truthy capacity then _ else _) as [p [[]|e]].
Qed.

Lemma merge_before_silicon temperature capacity thickness silicon base :
  update_parameters float_of_str temperature capacity thickness silicon base
  = match update_parameters float_of_str temperature capacity thickness PNone
            base with
    | (p, Ok _) => update_parameters float_of_str PNone PNone PNone silicon p
    | (p, Raise e) => (p, Raise e)
    end.
Proof.
  run_store. simpl.
  destruct (if truthy temperature then _ else _) as [p1 [[]|e]]; [|done].
  destruct (if truthy capacity then _ else _) as [p2 [[]|e]]; [|done].
  by destruct (if truthy thickness then _ else _) as [p3 [[]|e]].
Qed.

Lemma merge_before_thickness temperature capacity thickness base :
  update_parameters float_of_str temperature capacity thickness PNone base
  = match update_parameters float_of_str temperature capacity PNone PNone
            base with
    | (p, Ok _) => update_parameters float_of_str PNone PNone thickness PNone p
    | (p, Raise e) => (p, Raise e)
    end.
Proof.
  run_store. simpl.
  destruct (if truthy temperature then _ else _) as [p1 [[]|e]]; [|done].
  destruct (if truthy capacity then _ else _) as [p2 [[]|e]]; [|done].
  by destruct (if truthy thickness then _ else _) as [p3 [[]|e]].
Qed.

Lemma merge_temperature temperature base :
  update_parameters float_of_str temperature PNone PNone PNone base
  = if truthy temperature
    then update_item float_of_str "Ambient temperature [K]" temperature base
    else (base, Ok ()).
Proof.
  run_store. simpl. destruct (truthy temperature); [|done].
  by destruct (update_item _ _ _ _) as [p [[]|e]].
Qed.

Lemma merge_capacity capacity base :
  update_parameters float_of_str PNone capacity PNone PNone base
  = if truthy capacity then
      match truediv capacity
              (default PNone (base !! "Nominal cell capacity [A.h]")) with
      | Ok ratio =>
          match mul_float (default PNone (base !! "Electrode height [m]"))
                  ratio with
          | Ok new_height =>
              update_item float_of_str "Electrode height [m]"
                (PFloat new_height) base
          | Raise e => (base, Raise e)
          end
      | Raise e => (base, Raise e)
      end
    else (base, Ok ()).
Proof.
  run_store. simpl. destruct (truthy capacity); [|done].
  destruct (truediv _ _) as [ratio|e]; [|done].
  destruct (mul_float _ _) as [h|e]; [|done].
  by destruct (update_item _ _ _ _) as [p [[]|e]].
Qed.

Lemma merge_thickness thickness base :
  update_parameters float_of_str PNone PNone thickness PNone base
  = if truthy thickness
    then update_item float_of_str "Positive electrode thickness [m]"
           thickness base
    else (base, Ok ()).
Proof.
  run_store. simpl. destruct (truthy thickness); [|done].
  by destruct (update_item _ _ _ _) as [p [[]|e]].
Qed.

Lemma merge_silicon silicon base :
  update_parameters float_of_str PNone PNone PNone silicon base
  = if truthy silicon then
      match mul_float silicon 0.5 with
      | Ok half =>
          match update_item float_of_str
                  "Primary: Negative electrode active material volume fraction"
                  (PFloat (1 - half)) base with
          | (p, Ok _) =>
              update_item float_of_str
                "Secondary: Negative electrode active material volume fraction"
                (PFloat half) p
          | (p, Raise e) => (p, Raise e)
          end
      | Raise e => (base, Raise e)
      end
    else (base, Ok ()).
Proof.
  run_store. simpl. destruct (truthy silicon); [|done].
  destruct (mul_float _ _) as [half|e]; [|done].
  by destruct (update_item _ _ _ _) as [p [[]|e]].
Qed.

End MergeSteps.

Section MergeFacts.

Variable float_of_str : string → option float.

Lemma merge_steps temperature capacity thickness silicon base :
  update_parameters float_of_str temperature capacity thickness silicon base
  = match update_parameters float_of_str temperature PNone PNone PNone base with
    | (p1, Ok _) =>
        match update_parameters float_of_str PNone capacity PNone PNone p1 with
        | (p2, Ok _) =>
            match update_parameters float_of_str PNone PNone thickness PNone
                    p2 with
            | (p3, Ok _) =>
                update_parameters float_of_str PNone PNone PNone silicon p3
            | (p3, Raise e) => (p3, Raise e)
            end
        | (p2, Raise e) => (p2, Raise e)
        end
    | (p1, Raise e) => (p1, Raise e)
    end.
Proof.
  rewrite merge_after_temperature.
  destruct (update_parameters _ temperature _ _ _ _) as [p1 [[]|e]]; [|done].
  rewrite merge_before_silicon, merge_before_thickness.
  destruct (update_parameters _ _ capacity _ _ _) as [p2 [[]|e]]; [|done].
  by destruct (update_parameters _ _ _ thickness _ _) as [p3 [[]|e]].
Qed.

(** A relation between stores that every step respects holds between the
    base set and what the merge leaves. *)
Lemma merge_invariant (R : gmap string value → gmap string value → Prop)
    temperature capacity thickness silicon :
  (∀ p, R p p) →
  (∀ p q r, R p q → R q r → R p r) →
  (∀ p, R p (update_parameters float_of_str temperature PNone PNone PNone p).1) →
  (∀ p, R p (update_parameters float_of_str PNone capacity PNone PNone p).1) →
  (∀ p, R p (update_parameters float_of_str PNone PNone thickness PNone p).1) →
  (∀ p, R p (update_parameters float_of_str PNone PNone PNone silicon p).1) →
  ∀ base,
    R base
      (update_parameters float_of_str temperature capacity thickness silicon
         base).1.
Proof.
  intros Hrefl Htrans Ht Hc Hth Hs base. rewrite merge_steps.
  pose proof (Ht base) as H1.
  destruct (update_parameters _ temperature _ _ _ _) as [p1 [[]|e]];
    [|exact H1].
  pose proof (Hc p1) as H2.
  destruct (update_parameters _ _ capacity _ _ _) as [p2 [[]|e]];
    [|by eapply Htrans].
  pose proof (Hth p2) as H3.
  destruct (update_parameters _ _ _ thickness _ _) as [p3 [[]|e]];
    [|eauto].
  pose proof (Hs p3) as H4. eauto.
Qed.

Lemma update_item_lookup_ne key v (p : gmap string value) k :
  k ≠ key → (update_item float_of_str key v p).1 !! k = p !! k.
Proof.
  intros Hne. unfold update_item, Store.update.
  repeat case_match; simpl; by rewrite ?lookup_insert_ne.
Qed.

Lemma update_item_keeps key v (p : gmap string value) k :
  is_Some (p !! k) → is_Some ((update_item float_of_str key v p).1 !! k).
Proof.
  intros Hk. unfold update_item, Store.update.
  repeat case_match; simpl; try done.
  destruct (decide (key = k)) as [->|Hne];
    [rewrite lookup_insert_eq; eauto | by rewrite lookup_insert_ne].
Qed.

(** What a step leaves of a parameter it does not write to. *)
Lemma merge_temperature_other temperature base k :
  truthy temperature = false ∨ k ≠ "Ambient temperature [K]" →
  (update_parameters float_of_str temperature PNone PNone PNone base).1 !! k
  = base !! k.
Proof.
  rewrite merge_temperature. intros [->|Hne]; [done|].
  destruct (truthy temperature); [|done]. by apply update_item_lookup_ne.
Qed.

Lemma merge_capacity_other capacity base k :
  truthy capacity = false ∨ k ≠ "Electrode height [m]" →
  (update_parameters float_of_str PNone capacity PNone PNone base).1 !! k
  = base !! k.
Proof.
  rewrite merge_capacity. intros [->|Hne]; [done|].
  repeat case_match; try done. by apply update_item_lookup_ne.
Qed.

Lemma merge_thickness_other thickness base k :
  truthy thickness = false ∨ k ≠ "Positive electrode thickness [m]" →
  (update_parameters float_of_str PNone PNone thickness PNone base).1 !! k
  = base !! k.
Proof.
  rewrite merge_thickness. intros [->|Hne]; [done|].
  destruct (truthy thickness); [|done]. by apply update_item_lookup_ne.
Qed.

Lemma merge_silicon_other silicon base k :
  truthy silicon = false
  ∨ (k ≠ "Primary: Negative electrode active material volume fraction"
     ∧ k ≠ "Secondary: Negative electrode active material volume fraction") →
  (update_parameters float_of_str PNone PNone PNone silicon base).1 !! k
  = base !! k.
Proof.
  rewrite merge_silicon. intros [->|[Hp Hs]]; [done|].
  destruct (truthy silicon); [|done].
  destruct (mul_float _ _) as [half|e]; [|done].
  pose proof (update_item_lookup_ne
                "Primary: Negative electrode active material volume fraction"
                (PFloat (1 - half)) base k Hp) as H1.
  destruct (update_item _ _ _ base) as [p [[]|e]]; simpl in *; [|done].
  by rewrite update_item_lookup_ne.
Qed.

Lemma merge_other temperature capacity thickness silicon base k :
  truthy temperature = false ∨ k ≠ "Ambient temperature [K]" →
  truthy capacity = false ∨ k ≠ "Electrode height [m]" →
  truthy thickness = false ∨ k ≠ "Positive electrode thickness [m]" →
  truthy silicon = false
  ∨ (k ≠ "Primary: Negative electrode active material volume fraction"
     ∧ k ≠ "Secondary: Negative electrode active material volume fraction") →
  (update_parameters float_of_str temperature capacity thickness silicon
     base).1 !! k
  = base !! k.
Proof.
  intros Ht Hc Hth Hs. symmetry. revert base.
  apply (merge_invariant (λ p q, p !! k = q !! k)); try done.
  - intros p q r -> ->. done.
  - intros p. symmetry. by apply merge_temperature_other.
  - intros p. symmetry. by apply merge_capacity_other.
  - intros p. symmetry. by apply merge_thickness_other.
  - intros p. symmetry. by apply merge_silicon_other.
Qed.

Lemma merge_keeps temperature capacity thickness silicon base k :
  is_Some (base !! k) →
  is_Some ((update_parameters float_of_str temperature capacity thickness
              silicon base).1 !! k).
Proof.
  revert base.
  apply (merge_invariant (λ p q, is_Some (p !! k) → is_Some (q !! k)));
    try done.
  - intros p q r Hpq Hqr Hp. auto.
  - intros p Hp. rewrite merge_temperature.
    destruct (truthy temperature); [|done]. by apply update_item_keeps.
  - intros p Hp. rewrite merge_capacity.
    repeat case_match; try done. by apply update_item_keeps.
  - intros p Hp. rewrite merge_thickness.
    destruct (truthy thickness); [|done]. by apply update_item_keeps.
  - intros p Hp. rewrite merge_silicon.
    destruct (truthy silicon); [|done].
    destruct (mul_float _ _) as [half|e]; [|done].
    pose proof (update_item_keeps
                  "Primary: Negative electrode active material volume fraction"
                  (PFloat (1 - half)) p k Hp) as H1.
    destruct (update_item _ _ _ p) as [q [[]|e]]; simpl in *; [|done].
    by apply update_item_keeps.
Qed.

(** A merge of overrides that are all absent, zero or empty does nothing. *)
Lemma merge_nothing base :
  ∀ temperature capacity thickness silicon,
    truthy temperature = false → truthy capacity = false →
    truthy thickness = false → truthy silicon = false →
    update_parameters float_of_str temperature capacity thickness silicon base
    = (base, Ok ()).
Proof.
  intros temperature capacity thickness silicon Ht Hc Hth Hs.
  rewrite merge_steps, merge_temperature, Ht, merge_capacity, Hc,
    merge_thickness, Hth, merge_silicon, Hs. done.
Qed.

(** What [update] does with an override, by the kind of the override. *)
Lemma update_item_cases key v (p : gmap string value) :
  (p !! key = None →
   update_item float_of_str key v p = (p, Raise (KeyError key)))
  ∧ (is_Some (p !! key) →
     ((∀ s, v ≠ PStr s) →
      update_item float_of_str key v p = (<[key := v]> p, Ok ()))
     ∧ (v = PStr "[input]" →
        update_item float_of_str key v p = (<[key := v]> p, Ok ()))
     ∧ (∀ s f, v = PStr s → s ≠ "[input]" → float_of_str s = Some f →
        update_item float_of_str key v p = (<[key := PFloat f]> p, Ok ()))
     ∧ (∀ s, v = PStr s → s ≠ "[input]" → float_of_str s = None →
        update_item float_of_str key v p = (p, Raise (ValueError s)))).
Proof.
  split; [apply update_item_missing|].
  intros Hkey. rewrite (update_item_present _ _ _ _ Hkey).
  split; [|split; [|split]].
  - intros Hv. by rewrite stored_not_str.
  - by intros ->.
  - intros s f -> Hs Hf. by rewrite stored_str, Hf.
  - intros s -> Hs Hf. by rewrite stored_str, Hf.
Qed.

End MergeFacts.

(** C2 as stated fails.  A non-zero capacity override is not written over
    the base capacity (nor anywhere else): it rescales the electrode height.
    A temperature given as text is not written as given either: text that
    reads as a number is stored as that number, and text that does not makes
    the merge raise and leaves the base temperature. *)
Lemma capacity_override_not_stored :
  let merged :=
    (update_parameters example_float_of_str PNone (PFloat 2) PNone PNone
       example_base).1 in
  let text :=
    update_parameters example_float_of_str (PStr "hot") PNone PNone PNone
      example_base in
  example_base !! "Nominal cell capacity [A.h]" = Some (PFloat 1)
  ∧ merged !! "Nominal cell capacity [A.h]" = Some (PFloat 1)
  ∧ merged !! "Electrode height [m]" = Some (PFloat 6)
  ∧ map_to_list merged
    = [ ("Secondary: Negative electrode active material volume fraction",
         PFloat 0.015);
        ("Electrode height [m]", PFloat 6);
        ("Ambient temperature [K]", PFloat 298.15);
        ("Nominal cell capacity [A.h]", PFloat 1);
        ("Positive electrode thickness [m]", PFloat 7.56e-05);
        ("Primary: Negative electrode active material volume fraction",
         PFloat 0.735) ]
  ∧ truthy (PStr "hot") = true
  ∧ text.2 = Raise (ValueError "hot")
  ∧ text.1 !! "Ambient temperature [K]" = Some (PFloat 298.15)
  ∧ (update_parameters example_float_of_str (PStr "300") PNone PNone PNone
       example_base).1 !! "Ambient temperature [K]" = Some (PFloat 300).
Proof. cbv zeta. repeat split; vm_compute; reflexivity. Qed.

(** C2 (amended): a field whose override is absent, zero or empty leaves the
    corresponding base values unchanged, and when all four are, the merge
    changes nothing.  A temperature override that is not overwrites the
    temperature of a base set that has one: with the override itself unless
    it is text, with the number the text reads as otherwise; text that is
    not a number raises [ValueError], and a base set without a temperature
    raises [KeyError], both leaving the set as it was.  The thickness
    override does the same once the steps before it have completed, and is
    not looked at when one of them raised.  The capacity override is never
    stored.  Merging temperature 0 leaves the base temperature; merging 298
    into a set that has a temperature sets it to 298. *)
Theorem merge_gated_by_truthiness :
  ∀ float_of_str (base : gmap string value)
    temperature capacity thickness silicon,
    let run :=
      update_parameters float_of_str temperature capacity thickness silicon
        base in
    let before :=
      update_parameters float_of_str temperature capacity PNone PNone base in
    (truthy temperature = false →
     run.1 !! "Ambient temperature [K]" = base !! "Ambient temperature [K]")
    ∧ (truthy capacity = false →
       run.1 !! "Electrode height [m]" = base !! "Electrode height [m]")
    ∧ (truthy thickness = false →
       run.1 !! "Positive electrode thickness [m]"
       = base !! "Positive electrode thickness [m]")
    ∧ (truthy silicon = false →
       run.1 !! "Primary: Negative electrode active material volume fraction"
       = base !! "Primary: Negative electrode active material volume fraction"
       ∧ run.1 !! "Secondary: Negative electrode active material volume fraction"
         = base !! "Secondary: Negative electrode active material volume fraction")
    ∧ (truthy temperature = false → truthy capacity = false →
       truthy thickness = false → truthy silicon = false →
       run = (base, Ok ()))
    ∧ (truthy temperature = true →
       (base !! "Ambient temperature [K]" = None →
        run = (base, Raise (KeyError "Ambient temperature [K]")))
       ∧ (is_Some (base !! "Ambient temperature [K]") →
          ((∀ s, temperature ≠ PStr s) →
           run.1 !! "Ambient temperature [K]" = Some temperature)
          ∧ (temperature = PStr "[input]" →
             run.1 !! "Ambient temperature [K]" = Some temperature)
          ∧ (∀ s f, temperature = PStr s → s ≠ "[input]" →
               float_of_str s = Some f →
               run.1 !! "Ambient temperature [K]" = Some (PFloat f))
          ∧ (∀ s, temperature = PStr s → s ≠ "[input]" →
               float_of_str s = None →
               run = (base, Raise (ValueError s)))))
    ∧ (truthy thickness = true → before.2 = Ok () →
       (base !! "Positive electrode thickness [m]" = None →
        run = (before.1, Raise (KeyError "Positive electrode thickness [m]")))
       ∧ (is_Some (base !! "Positive electrode thickness [m]") →
          ((∀ s, thickness ≠ PStr s) →
           run.1 !! "Positive electrode thickness [m]" = Some thickness)
          ∧ (thickness = PStr "[input]" →
             run.1 !! "Positive electrode thickness [m]" = Some thickness)
          ∧ (∀ s f, thickness = PStr s → s ≠ "[input]" →
               float_of_str s = Some f →
               run.1 !! "Positive electrode thickness [m]" = Some (PFloat f))
          ∧ (∀ s, thickness = PStr s → s ≠ "[input]" →
               float_of_str s = None →
               run = (before.1, Raise (ValueError s)))))
    ∧ (∀ e, before.2 = Raise e →
       run = before
       ∧ run.1 !! "Positive electrode thickness [m]"
         = base !! "Positive electrode thickness [m]")
    ∧ run.1 !! "Nominal cell capacity [A.h]"
      = base !! "Nominal cell capacity [A.h]"
    ∧ (update_parameters float_of_str (PInt 0) PNone PNone PNone base).1
        !! "Ambient temperature [K]" = base !! "Ambient temperature [K]"
    ∧ (is_Some (base !! "Ambient temperature [K]") →
       (update_parameters float_of_str (PInt 298) PNone PNone PNone base).1
         !! "Ambient temperature [K]" = Some (PInt 298)).
Proof.
  intros float_of_str base temperature capacity thickness silicon run before.
  assert (Htemperature : ∀ t c th s p v,
    truthy t = true →
    update_item float_of_str "Ambient temperature [K]" t base = (p, Ok ()) →
    p !! "Ambient temperature [K]" = Some v →
    (update_parameters float_of_str t c th s base).1
      !! "Ambient temperature [K]" = Some v).
  { intros t c th s p v Ht Hup Hv.
    rewrite merge_after_temperature, merge_temperature, Ht, Hup.
    rewrite merge_other by (auto || by left). exact Hv. }
  assert (Hraise : ∀ t c th s e,
    truthy t = true →
    update_item float_of_str "Ambient temperature [K]" t base
    = (base, Raise e) →
    update_parameters float_of_str t c th s base = (base, Raise e)).
  { intros t c th s e Ht Hup.
    by rewrite merge_after_temperature, merge_temperature, Ht, Hup. }
  assert (Hbefore : before.1 !! "Positive electrode thickness [m]"
                    = base !! "Positive electrode thickness [m]").
  { subst before. apply merge_other; auto. }
  assert (Hrun : run
    = match before with
      | (p, Ok _) =>
          match update_parameters float_of_str PNone PNone thickness PNone
                  p with
          | (q, Ok _) =>
              update_parameters float_of_str PNone PNone PNone silicon q
          | (q, Raise e) => (q, Raise e)
          end
      | (p, Raise e) => (p, Raise e)
      end).
  { subst run before. rewrite merge_before_silicon, merge_before_thickness.
    destruct (update_parameters _ _ _ PNone PNone _) as [p [[]|e]]; [|done].
    by destruct (update_parameters _ _ _ thickness _ _) as [q [[]|e]]. }
  assert (Hthickness : ∀ q v,
    truthy thickness = true → before.2 = Ok () →
    update_item float_of_str "Positive electrode thickness [m]" thickness
      before.1 = (q, Ok ()) →
    q !! "Positive electrode thickness [m]" = Some v →
    run.1 !! "Positive electrode thickness [m]" = Some v).
  { intros q v Hth Hok Hup Hv. rewrite Hrun.
    destruct before as [p [[]|e]]; [|discriminate Hok]. simpl in *.
    rewrite merge_thickness, Hth, Hup.
    rewrite merge_other by auto. exact Hv. }
  assert (Hthraise : ∀ e,
    truthy thickness = true → before.2 = Ok () →
    update_item float_of_str "Positive electrode thickness [m]" thickness
      before.1 = (before.1, Raise e) →
    run = (before.1, Raise e)).
  { intros e Hth Hok Hup. rewrite Hrun.
    destruct before as [p [[]|e']]; [|discriminate Hok]. simpl in *.
    by rewrite merge_thickness, Hth, Hup. }
  split; [|split; [|split; [|split; [|split; [|split; [|split;
    [|split; [|split; [|split]]]]]]]]].
  - intros Ht. apply merge_other; auto.
  - intros Hc. apply merge_other; auto.
  - intros Hth. apply merge_other; auto.
  - intros Hs. split; apply merge_other; auto.
  - apply merge_nothing.
  - intros Ht.
    destruct (update_item_cases float_of_str "Ambient temperature [K]"
                temperature base) as [Hmissing Hpresent].
    split.
    + intros Hkey. apply Hraise; auto.
    + intros Hkey.
      destruct (Hpresent Hkey) as (Hplain & Hinput & Hnumber & Htext).
      split; [|split; [|split]].
      * intros Hv. eapply Htemperature; [done|by apply Hplain|].
        by rewrite lookup_insert_eq.
      * intros Hv. eapply Htemperature; [done|by apply Hinput|].
        by rewrite lookup_insert_eq.
      * intros s f Hv Hs Hf. eapply Htemperature; [done|by eapply Hnumber|].
        by rewrite lookup_insert_eq.
      * intros s Hv Hs Hf. apply Hraise; [done|]. by apply Htext.
  - intros Hth Hok.
    destruct (update_item_cases float_of_str
                "Positive electrode thickness [m]" thickness before.1)
      as [Hmissing Hpresent].
    rewrite Hbefore in Hmissing, Hpresent.
    split.
    + intros Hkey. apply Hthraise; auto.
    + intros Hkey.
      destruct (Hpresent Hkey) as (Hplain & Hinput & Hnumber & Htext).
      split; [|split; [|split]].
      * intros Hv. eapply Hthickness; [done..|by apply Hplain|].
        by rewrite lookup_insert_eq.
      * intros Hv. eapply Hthickness; [done..|by apply Hinput|].
        by rewrite lookup_insert_eq.
      * intros s f Hv Hs Hf. eapply Hthickness; [done..|by eapply Hnumber|].
        by rewrite lookup_insert_eq.
      * intros s Hv Hs Hf. apply Hthraise; [done..|]. by apply Htext.
  - intros e He. assert (Heq : run = before).
    { rewrite Hrun. destruct before as [p [[]|e']]; [discriminate He|done]. }
    split; [exact Heq|]. by rewrite Heq.
  - apply merge_other; auto.
  - apply merge_other; auto.
  - intros Hkey. rewrite merge_temperature. simpl.
    destruct (update_item_cases float_of_str "Ambient temperature [K]"
                (PInt 298) base) as [_ Hpresent].
    destruct (Hpresent Hkey) as (Hplain & _).
    rewrite Hplain by done. simpl. by rewrite lookup_insert_eq.
Qed.

Lemma merge_gated_by_truthiness_witness :
  let run :=
    update_parameters example_float_of_str (PInt 298) PNone (PFloat 0)
      (PStr "") example_base in
  run.1 !! "Ambient temperature [K]" = Some (PInt 298)
  ∧ run.1 !! "Electrode height [m]" = Some (PFloat 3)
  ∧ run.1 !! "Positive electrode thickness [m]" = Some (PFloat 7.56e-05)
  ∧ run.1 !! "Primary: Negative electrode active material volume fraction"
    = Some (PFloat 0.735)
  ∧ update_parameters example_float_of_str PNone (PInt 0) (PList [])
      (PBool false) example_base
    = (example_base, Ok ())
  ∧ (update_parameters example_float_of_str (PStr "300") PNone
       (PStr "thick") PNone example_base).1
      !! "Ambient temperature [K]" = Some (PFloat 300)
  ∧ (update_parameters example_float_of_str (PStr "300") PNone
       (PStr "thick") PNone example_base).2
    = Raise (ValueError "thick")
  ∧ update_parameters example_float_of_str PNone PNone (PFloat 0.0001) PNone
      (delete "Positive electrode thickness [m]" example_base)
    = (delete "Positive electrode thickness [m]" example_base,
       Raise (KeyError "Positive electrode thickness [m]")).
Proof.
  destruct (merge_gated_by_truthiness example_float_of_str example_base
              (PInt 298) PNone (PFloat 0) (PStr ""))
    as (_ & Hh & Hth & Hs & _ & Ht & _).
  destruct (merge_gated_by_truthiness example_float_of_str example_base
              PNone (PInt 0) (PList []) (PBool false))
    as (_ & _ & _ & _ & Hnoop & _).
  destruct (merge_gated_by_truthiness example_float_of_str example_base
              (PStr "300") PNone (PStr "thick") PNone)
    as (_ & _ & _ & _ & _ & Htext & Hthick & _).
  destruct (merge_gated_by_truthiness example_float_of_str
              (delete "Positive electrode thickness [m]" example_base)
              PNone PNone (PFloat 0.0001) PNone)
    as (_ & _ & _ & _ & _ & _ & Hmissing & _).
  destruct (Ht eq_refl) as [_ Hpresent].
  destruct (Hpresent ltac:(by eexists)) as (Hplain & _).
  destruct (Htext eq_refl) as [_ Htext'].
  destruct (Htext' ltac:(by eexists)) as (_ & _ & Hnumber & _).
  destruct (Hthick eq_refl eq_refl) as [_ Hthick'].
  destruct (Hthick' ltac:(by eexists)) as (_ & _ & _ & Hnan).
  destruct (Hmissing eq_refl eq_refl) as [Hkey _].
  split; [apply Hplain; discriminate|]. split; [exact (Hh eq_refl)|].
  split; [exact (Hth eq_refl)|]. split; [exact (proj1 (Hs eq_refl))|].
  split; [exact (Hnoop eq_refl eq_refl eq_refl eq_refl)|].
  split; [apply (Hnumber "300" 300%float); [reflexivity|discriminate|reflexivity]|].
  split.
  - rewrite (Hnan "thick"); [reflexivity|reflexivity|discriminate|reflexivity].
  - rewrite Hkey; reflexivity.
Defined.

(** C7 as stated fails on a base set whose nominal capacity is zero: the
    division raises and the electrode height keeps its base value.  It
    fails too for a capacity too large for a float, and when the temperature
    override before it raises. *)
Lemma capacity_override_zero_base_capacity :
  let base : gmap string value :=
    {[ "Nominal cell capacity [A.h]" := PFloat 0;
       "Electrode height [m]" := PFloat 1 ]} in
  let run :=
    update_parameters example_float_of_str PNone (PFloat 2) PNone PNone base in
  let large :=
    update_parameters example_float_of_str PNone (PInt (10 ^ 400)) PNone PNone
      example_base in
  let text :=
    update_parameters example_float_of_str (PStr "hot") (PFloat 2) PNone PNone
      example_base in
  run.2 = Raise ZeroDivisionError
  ∧ run.1 !! "Electrode height [m]" = Some (PFloat 1)
  ∧ (1 * (2 / 0))%float = infinity
  ∧ large.2 = Raise OverflowError
  ∧ large.1 !! "Electrode height [m]" = Some (PFloat 3)
  ∧ text.2 = Raise (ValueError "hot")
  ∧ text.1 !! "Electrode height [m]" = Some (PFloat 3).
Proof. cbv zeta. repeat split; vm_compute; reflexivity. Qed.

(** C7 (amended): on a base set holding a nominal capacity and an electrode
    height, once the temperature override before it has been applied without
    error, a non-zero capacity override [c] sets the electrode height to
    [height * (c / capacity)] when this arithmetic succeeds, whatever the
    overrides after it; on floats with a non-zero base capacity it does.
    When the arithmetic raises (a base capacity of zero, a value that is no
    number, an integer too large for a float) the merge raises the same
    error and the height keeps its base value, and so it does when the
    temperature override raises.  With base capacity 1.0 and height 1.0,
    requesting 2.0 gives height 2.0. *)
Theorem capacity_override_scales_height :
  ∀ float_of_str (base : gmap string value)
    temperature capacity thickness silicon (base_capacity base_height : value),
    base !! "Nominal cell capacity [A.h]" = Some base_capacity →
    base !! "Electrode height [m]" = Some base_height →
    truthy capacity = true →
    let first :=
      update_parameters float_of_str temperature PNone PNone PNone base in
    let run :=
      update_parameters float_of_str temperature capacity thickness silicon
        base in
    (first.2 = Ok () →
     (∀ ratio new_height,
        truediv capacity base_capacity = Ok ratio →
        mul_float base_height ratio = Ok new_height →
        run.1 !! "Electrode height [m]" = Some (PFloat new_height))
     ∧ (∀ e,
          truediv capacity base_capacity = Raise e
          ∨ (∃ ratio, truediv capacity base_capacity = Ok ratio
                      ∧ mul_float base_height ratio = Raise e) →
          run = (first.1, Raise e)
          ∧ run.1 !! "Electrode height [m]" = Some base_height)
     ∧ (∀ c bc bh : float,
          capacity = PFloat c → base_capacity = PFloat bc →
          base_height = PFloat bh →
          PrimFloat.eqb bc 0 = false →
          run.1 !! "Electrode height [m]" = Some (PFloat (bh * (c / bc)))
          ∧ (truthy thickness = false → truthy silicon = false →
             run.2 = Ok ())
          ∧ (bc = 1%float → bh = 1%float → c = 2%float →
             run.1 !! "Electrode height [m]" = Some (PFloat 2))))
    ∧ (∀ e, first.2 = Raise e →
         run = (base, Raise e)
         ∧ run.1 !! "Electrode height [m]" = Some base_height).
Proof.
  intros float_of_str base temperature capacity thickness silicon
    base_capacity base_height Hbc Hbh Hc first run.
  assert (Hfirst : ∀ k, k ≠ "Ambient temperature [K]" →
            first.1 !! k = base !! k).
  { intros k Hk. subst first. apply merge_temperature_other. by right. }
  assert (Hrun : run
    = match first with
      | (p1, Ok _) =>
          match update_parameters float_of_str PNone capacity PNone PNone
                  p1 with
          | (p2, Ok _) =>
              update_parameters float_of_str PNone PNone thickness silicon p2
          | (p2, Raise e) => (p2, Raise e)
          end
      | (p1, Raise e) => (p1, Raise e)
      end).
  { subst run first. rewrite merge_after_temperature.
    destruct (update_parameters _ temperature _ _ _ _) as [p1 [[]|e]]; [|done].
    apply merge_after_capacity. }
  assert (Hstep :
    update_parameters float_of_str PNone capacity PNone PNone first.1
    = match truediv capacity base_capacity with
      | Ok ratio =>
          match mul_float base_height ratio with
          | Ok new_height =>
              (<["Electrode height [m]" := PFloat new_height]> first.1, Ok ())
          | Raise e => (first.1, Raise e)
          end
      | Raise e => (first.1, Raise e)
      end).
  { rewrite merge_capacity, Hc, !Hfirst, Hbc, Hbh by done. simpl.
    destruct (truediv capacity base_capacity) as [ratio|e]; [|done].
    destruct (mul_float base_height ratio) as [new_height|e]; [|done].
    rewrite update_item_present; [done|]. rewrite Hfirst by done. by eexists. }
  assert (Hset : ∀ ratio new_height,
    first.2 = Ok () →
    truediv capacity base_capacity = Ok ratio →
    mul_float base_height ratio = Ok new_height →
    run.1 !! "Electrode height [m]" = Some (PFloat new_height)).
  { intros ratio new_height Hok Hratio Hheight. rewrite Hrun.
    destruct first as [p1 [[]|e]]; [|discriminate Hok]. simpl in *.
    rewrite Hstep, Hratio, Hheight.
    rewrite merge_other by auto. by rewrite lookup_insert_eq. }
  split.
  - intros Hok. split; [|split].
    + intros ratio new_height. by apply Hset.
    + intros e He.
      assert (Heq : run = (first.1, Raise e)).
      { rewrite Hrun. destruct first as [p1 [[]|e']]; [|discriminate Hok].
        simpl in *. rewrite Hstep.
        destruct He as [-> | (ratio & -> & ->)]; done. }
      split; [exact Heq|]. rewrite Heq. simpl. by rewrite Hfirst.
    + intros c bc bh -> -> -> Hbc0.
      assert (Hheight : run.1 !! "Electrode height [m]"
                        = Some (PFloat (bh * (c / bc)))).
      { apply (Hset (c / bc)%float); [done| by apply truediv_floats | done]. }
      split; [exact Hheight|]. split.
      * intros Hth Hs. rewrite Hrun.
        destruct first as [p1 [[]|e']]; [|discriminate Hok]. simpl in *.
        rewrite Hstep, (truediv_floats _ _ Hbc0).
        change (mul_float (PFloat bh) (c / bc))
          with (@Ok float (bh * (c / bc))).
        cbv beta iota. by rewrite merge_nothing.
      * intros -> -> ->. exact Hheight.
  - intros e He.
    assert (Hbase : first.1 = base).
    { subst first. rewrite merge_temperature in *.
      destruct (truthy temperature); [|discriminate He].
      unfold update_item, Store.update in *.
      repeat case_match; simpl in *; try done; discriminate He. }
    assert (Heq : run = (base, Raise e)).
    { rewrite Hrun. destruct first as [p1 [[]|e']]; simpl in *;
        [discriminate He|]. by injection He as ->; subst p1. }
    split; [exact Heq|]. by rewrite Heq.
Qed.

Lemma capacity_override_scales_height_witness :
  let base : gmap string value :=
    {[ "Nominal cell capacity [A.h]" := PFloat 1;
       "Electrode height [m]" := PFloat 1 ]} in
  let run :=
    update_parameters example_float_of_str PNone (PFloat 2) PNone PNone base in
  let ints :=
    update_parameters example_float_of_str PNone (PInt 3) PNone PNone
      example_base in
  run.1 !! "Electrode height [m]" = Some (PFloat 2)
  ∧ run.2 = Ok ()
  ∧ ints.1 !! "Electrode height [m]" = Some (PFloat 9).
Proof.
  intros base run ints.
  assert (Hbc : base !! "Nominal cell capacity [A.h]" = Some (PFloat 1))
    by (vm_compute; reflexivity).
  assert (Hbh : base !! "Electrode height [m]" = Some (PFloat 1))
    by (vm_compute; reflexivity).
  destruct (capacity_override_scales_height example_float_of_str base
              PNone (PFloat 2) PNone PNone _ _ Hbc Hbh eq_refl)
    as [Hrun _].
  destruct (Hrun eq_refl) as (_ & _ & Hfloat).
  destruct (Hfloat 2%float 1%float 1%float eq_refl eq_refl eq_refl eq_refl)
    as (_ & Hok & Hexample).
  destruct (capacity_override_scales_height example_float_of_str example_base
              PNone (PInt 3) PNone PNone (PFloat 1) (PFloat 3)
              eq_refl eq_refl eq_refl)
    as [Hints _].
  destruct (Hints eq_refl) as (Hset & _).
  split; [exact (Hexample eq_refl eq_refl eq_refl)|].
  split; [exact (Hok eq_refl eq_refl)|].
  apply (Hset 3%float 9%float); vm_compute; reflexivity.
Defined.

(** ** The request boundary *)

Section RequestBoundary.

Variable ParameterValues : string → result (gmap string value).
Variable float_of_str : string → option float.
Variable solve : simulation → solve_args → result Solution.
Variable str : exn → string.

#[local] Arguments update_parameters : simpl never.
#[local] Arguments lab2_overrides : simpl never.

(** The [try] block on a decoded dict, once the parameter set is loaded. *)
Lemma lab2_try_dict items base :
  ParameterValues "Chen2020_composite" = Ok base →
  lab2_try ParameterValues float_of_str solve (Ok (PDict items))
  = (let temperature := lab2_data_get items "Ambient temperature [K]" in
     let silicon_percent := lab2_data_get items "Silicon Percentage" in
     let run := lab2_parameters float_of_str base temperature silicon_percent in
     _ ← run.2;
     sol ← solve (lab2_simulation run.1) lab2_solve_args;
     graphs1 ← plot_graphs_against_cycle sol 3 lab2_plots None;
     graphs2 ← plot_against_cycle sol 3 "Throughput capacity [A.h]" "Capacity";
     Ok [ [Title "Total Lithium in electrodes"; Graphs graphs1];
          [Title "Capacity over Cycles"; Graphs graphs2] ]).
Proof.
  intros Hbase. unfold lab2_try, lab2_data_get, data_get. simpl.
  destruct (dict_lookup items "Ambient temperature [K]");
    destruct (dict_lookup items "C Rates");
    destruct (dict_lookup items "Silicon Percentage");
    simpl; rewrite Hbase; simpl; unfold lab2_parameters.
  all: destruct ((lab2_overrides _ ≫= _) base) as [parameters outcome].
  all: reflexivity.
Qed.

(** C5: whatever the try block raises, the handler answers with the single
    string ["ERROR: " + str(e)] and nothing else; a request ends either so
    or with the two complete graph groups.  The failure may come from any
    stage: reading the body, a body that is not an object, loading the
    parameter set, the handler's own overrides and the merge, the solver, or
    a variable the solution lacks. *)
Theorem errors_caught_at_request_boundary :
  ∀ request_json,
    (∀ e, lab2_try ParameterValues float_of_str solve request_json = Raise e →
          simulate_lab2 ParameterValues float_of_str solve str request_json
          = JsonStrings ["ERROR: " +:+ str e])
    ∧ ((∃ e, simulate_lab2 ParameterValues float_of_str solve str request_json
             = JsonStrings ["ERROR: " +:+ str e])
       ∨ (∃ graphs1 graphs2,
             simulate_lab2 ParameterValues float_of_str solve str request_json
             = JsonGroups [ [Title "Total Lithium in electrodes"; Graphs graphs1];
                            [Title "Capacity over Cycles"; Graphs graphs2] ]))
    ∧ (∀ e, request_json = Raise e →
          simulate_lab2 ParameterValues float_of_str solve str request_json
          = JsonStrings ["ERROR: " +:+ str e])
    ∧ (∀ data, request_json = Ok data → (∀ items, data ≠ PDict items) →
          simulate_lab2 ParameterValues float_of_str solve str request_json
          = JsonStrings ["ERROR: " +:+ str AttributeError])
    ∧ (∀ items e, request_json = Ok (PDict items) →
          ParameterValues "Chen2020_composite" = Raise e →
          simulate_lab2 ParameterValues float_of_str solve str request_json
          = JsonStrings ["ERROR: " +:+ str e])
    ∧ (∀ items base, request_json = Ok (PDict items) →
          ParameterValues "Chen2020_composite" = Ok base →
          let run := lab2_parameters float_of_str base
                       (lab2_data_get items "Ambient temperature [K]")
                       (lab2_data_get items "Silicon Percentage") in
          (∀ e, run.2 = Raise e →
             simulate_lab2 ParameterValues float_of_str solve str request_json
             = JsonStrings ["ERROR: " +:+ str e])
          ∧ (∀ e, run.2 = Ok () →
             solve (lab2_simulation run.1) lab2_solve_args = Raise e →
             simulate_lab2 ParameterValues float_of_str solve str request_json
             = JsonStrings ["ERROR: " +:+ str e])
          ∧ (∀ sol e, run.2 = Ok () →
             solve (lab2_simulation run.1) lab2_solve_args = Ok sol →
             plot_graphs_against_cycle sol 3 lab2_plots None = Raise e
             ∨ (∃ graphs1,
                  plot_graphs_against_cycle sol 3 lab2_plots None = Ok graphs1
                  ∧ plot_against_cycle sol 3 "Throughput capacity [A.h]"
                      "Capacity" = Raise e) →
             simulate_lab2 ParameterValues float_of_str solve str request_json
             = JsonStrings ["ERROR: " +:+ str e])).
Proof.
  intros request_json.
  split; [|split; [|split; [|split; [|split]]]].
  - intros e He. unfold simulate_lab2. by rewrite He.
  - unfold simulate_lab2.
    destruct (lab2_try ParameterValues float_of_str solve request_json) as [r|e] eqn:Htry;
      [right | left; eauto].
    unfold lab2_try in Htry.
    repeat match type of Htry with
      | _ ≫= _ = Ok _ =>
          apply bind_Ok_inv in Htry as (? & _ & Htry); simpl in Htry
      | (let '(_, _) := ?x in _) = Ok _ => destruct x; simpl in Htry
      end.
    injection Htry as <-. eauto.
  - intros e ->. reflexivity.
  - intros data -> Hdata. unfold simulate_lab2, lab2_try. simpl.
    destruct data; try reflexivity. by destruct (Hdata items).
  - intros items e -> Hpv. unfold simulate_lab2, lab2_try, data_get. simpl.
    destruct (dict_lookup items "Ambient temperature [K]");
      destruct (dict_lookup items "C Rates");
      destruct (dict_lookup items "Silicon Percentage");
      simpl; by rewrite Hpv.
  - intros items base -> Hbase run. unfold simulate_lab2.
    rewrite (lab2_try_dict items base Hbase). cbv zeta. subst run.
    split; [|split].
    + intros e He. by rewrite He.
    + intros e Hrun Hsolve. rewrite Hrun. simpl.
      by rewrite Hsolve.
    + intros sol e Hrun Hsolve H. rewrite Hrun. simpl.
      rewrite Hsolve. simpl.
      destruct H as [H | (graphs1 & H1 & H2)].
      * by rewrite H.
      * rewrite H1. simpl. by rewrite H2.
Qed.

End RequestBoundary.

Lemma errors_caught_at_request_boundary_witness :
  simulate_lab2 (λ _, Ok example_lab2_base) example_float_of_str
      failing_solver describe
    (Ok (PDict [("Silicon Percentage", PFloat 0.5)]))
  = JsonStrings ["ERROR: solver"]
  ∧ simulate_lab2 (λ _, Ok example_lab2_base) example_float_of_str
      failing_solver describe
      (Ok (PDict [("Silicon Percentage", PStr "half")]))
    = JsonStrings ["ERROR: TypeError"]
  ∧ simulate_lab2 (λ _, Ok example_lab2_base) example_float_of_str
      failing_solver describe
      (Ok (PDict [("Ambient temperature [K]", PStr "hot")]))
    = JsonStrings ["ERROR: hot"]
  ∧ simulate_lab2 (λ _, Ok example_base) example_float_of_str
      failing_solver describe (Ok (PDict []))
    = JsonStrings
        ["ERROR: Primary: Maximum concentration in negative electrode [mol.m-3]"]
  ∧ simulate_lab2 (λ _, Ok example_lab2_base) example_float_of_str
      failing_solver describe
      (Ok (PList []))
    = JsonStrings ["ERROR: AttributeError"].
Proof.
  pose (PV := λ _ : string, Ok example_lab2_base).
  split; [|split; [|split; [|split]]].
  - destruct (errors_caught_at_request_boundary PV example_float_of_str
                failing_solver describe
                (Ok (PDict [("Silicon Percentage", PFloat 0.5)])))
      as (_ & _ & _ & _ & _ & H).
    destruct (H _ example_lab2_base eq_refl eq_refl) as (_ & Hsolver & _).
    apply (Hsolver (LibraryError "solver")); [vm_compute|]; reflexivity.
  - destruct (errors_caught_at_request_boundary PV example_float_of_str
                failing_solver describe
                (Ok (PDict [("Silicon Percentage", PStr "half")])))
      as (_ & _ & _ & _ & _ & H).
    destruct (H _ example_lab2_base eq_refl eq_refl) as (Hmerge & _).
    apply (Hmerge TypeError). vm_compute. reflexivity.
  - destruct (errors_caught_at_request_boundary PV example_float_of_str
                failing_solver describe
                (Ok (PDict [("Ambient temperature [K]", PStr "hot")])))
      as (_ & _ & _ & _ & _ & H).
    destruct (H _ example_lab2_base eq_refl eq_refl) as (Hmerge & _).
    apply (Hmerge (ValueError "hot")). vm_compute. reflexivity.
  - destruct (errors_caught_at_request_boundary (λ _, Ok example_base)
                example_float_of_str failing_solver describe (Ok (PDict [])))
      as (_ & _ & _ & _ & _ & H).
    destruct (H _ example_base eq_refl eq_refl) as (Hmerge & _).
    apply (Hmerge (KeyError
      "Primary: Maximum concentration in negative electrode [mol.m-3]")).
    vm_compute. reflexivity.
  - destruct (errors_caught_at_request_boundary PV example_float_of_str
                failing_solver describe
                (Ok (PList [])))
      as (_ & _ & _ & Hdata & _).
    apply (Hdata (PList []) eq_refl). discriminate.
Defined.

(** ** Binary64 rounding

    [binary_round] and the operations built on it, in terms of
    [round_spec]. *)

Lemma digits2_pos_bounds (m : positive) :
  2 ^ (Z.pos (digits2_pos m) - 1) <= Z.pos m < 2 ^ Z.pos (digits2_pos m).
Proof.
  induction m as [m IH|m IH|]; simpl digits2_pos.
  - rewrite Pos2Z.inj_succ.
    replace (Z.succ (Z.pos (digits2_pos m)) - 1) with (Z.succ (Z.pos (digits2_pos m) - 1)) by lia.
    rewrite !Z.pow_succ_r by lia. lia.
  - rewrite Pos2Z.inj_succ.
    replace (Z.succ (Z.pos (digits2_pos m)) - 1) with (Z.succ (Z.pos (digits2_pos m) - 1)) by lia.
    rewrite !Z.pow_succ_r by lia. lia.
  - simpl. lia.
Qed.

Lemma Zdigits2_bounds (M : Z) :
  0 < M -> 2 ^ (Zdigits2 M - 1) <= M < 2 ^ Zdigits2 M.
Proof. destruct M as [|m|m]; try lia. intros _. apply digits2_pos_bounds. Qed.

Lemma Zdigits2_unique (M d : Z) :
  2 ^ (d - 1) <= M < 2 ^ d -> 0 < M -> Zdigits2 M = d.
Proof.
  intros [Hlo Hhi] HM. pose proof (Zdigits2_bounds M HM) as [Hlo' Hhi'].
  assert (0 < Zdigits2 M) by (destruct M; simpl; lia).
  assert (0 < d).
  { destruct (Z_lt_le_dec 0 d) as [|Hd]; [assumption|].
    destruct (Z.eq_dec d 0) as [->|Hd0]; [simpl in Hhi; lia|].
    rewrite Z.pow_neg_r in Hhi by lia. lia. }
  destruct (Z_lt_le_dec (Zdigits2 M) d) as [Hlt|Hge].
  - assert (2 ^ Zdigits2 M <= 2 ^ (d - 1)) by (apply Z.pow_le_mono_r; lia). lia.
  - destruct (Z_lt_le_dec d (Zdigits2 M)) as [Hlt|Hle]; [|lia].
    assert (2 ^ d <= 2 ^ (Zdigits2 M - 1)) by (apply Z.pow_le_mono_r; lia). lia.
Qed.

Lemma pos_iter_xO (m d : positive) :
  Z.pos (Pos.iter xO m d) = Z.pos m * 2 ^ Z.pos d.
Proof.
  induction d as [|d IH] using Pos.peano_ind.
  - simpl. lia.
  - rewrite Pos.iter_succ, Pos2Z.inj_succ, Z.pow_succ_r by lia.
    rewrite Pos2Z.inj_xO, IH. lia.
Qed.

Lemma shl_align_fst (mx : positive) (ex ez : Z) :
  ez <= ex -> Z.pos (fst (shl_align mx ex ez)) = Z.pos mx * 2 ^ (ex - ez).
Proof.
  intros Hle. unfold shl_align.
  destruct (ez - ex) as [|d|d] eqn:Hd; simpl.
  - replace (ex - ez) with 0 by lia. simpl. lia.
  - lia.
  - rewrite pos_iter_xO. replace (ex - ez) with (Z.pos d) by lia. reflexivity.
Qed.

Lemma shl_align_snd (mx : positive) (ex ez : Z) :
  ez <= ex -> snd (shl_align mx ex ez) = ez.
Proof.
  intros Hle. unfold shl_align.
  destruct (ez - ex) as [|d|d] eqn:Hd; simpl; lia.
Qed.

Lemma iter_pos_nat {A} (f : A -> A) (n : positive) (x : A) :
  SpecFloat.iter_pos f n x = Nat.iter (Pos.to_nat n) f x.
Proof.
  revert x. induction n as [n IH|n IH|]; intros x; simpl SpecFloat.iter_pos.
  - rewrite !IH, Pos2Nat.inj_xI.
    replace (S (2 * Pos.to_nat n)) with (Pos.to_nat n + (Pos.to_nat n + 1))%nat by lia.
    rewrite !Nat.iter_add. simpl. reflexivity.
  - rewrite !IH, Pos2Nat.inj_xO.
    replace (2 * Pos.to_nat n)%nat with (Pos.to_nat n + Pos.to_nat n)%nat by lia.
    now rewrite Nat.iter_add.
  - reflexivity.
Qed.

Lemma shr_1_nonneg (m : Z) (r s : bool) :
  0 <= m ->
  shr_1 {| shr_m := m; shr_r := r; shr_s := s |}
  = {| shr_m := m / 2; shr_r := Z.odd m; shr_s := orb r s |}.
Proof.
  intros Hm. destruct m as [|[p|p|]|p]; try lia; simpl shr_1.
  - reflexivity.
  - f_equal. rewrite Pos2Z.inj_xI.
    apply Z.div_unique with (r := 1); lia.
  - f_equal. rewrite Pos2Z.inj_xO.
    apply Z.div_unique with (r := 0); lia.
  - reflexivity.
Qed.

Lemma mod_pow2_succ (M k : Z) :
  0 <= k ->
  (M mod 2 ^ (k + 1) =? 0)
  = andb (negb (Z.odd (M / 2 ^ k))) (M mod 2 ^ k =? 0).
Proof.
  intros Hk. rewrite Z.pow_add_r, Z.pow_1_r by lia.
  assert (0 < 2 ^ k) by (apply Z.pow_pos_nonneg; lia).
  rewrite Z.rem_mul_r by lia.
  rewrite Zodd_mod.
  pose proof (Z.mod_pos_bound M (2 ^ k) ltac:(lia)).
  pose proof (Z.mod_pos_bound (M / 2 ^ k) 2 ltac:(lia)).
  destruct (Z.eqb_spec ((M / 2 ^ k) mod 2) 1) as [->|Hne]; simpl.
  - apply Z.eqb_neq. lia.
  - replace ((M / 2 ^ k) mod 2) with 0 by lia. f_equal. lia.
Qed.

Lemma iter_shr_1 (M : Z) (n : nat) :
  0 <= M ->
  Nat.iter (S n) shr_1 {| shr_m := M; shr_r := false; shr_s := false |}
  = {| shr_m := M / 2 ^ Z.of_nat (S n);
       shr_r := Z.odd (M / 2 ^ Z.of_nat n);
       shr_s := negb (M mod 2 ^ Z.of_nat n =? 0) |}.
Proof.
  intros HM. induction n as [|n IH].
  - cbv [Nat.iter nat_rect]. rewrite shr_1_nonneg by lia.
    change (Z.of_nat 1) with 1. change (Z.of_nat 0) with 0.
    rewrite Z.pow_0_r, Z.pow_1_r, Z.div_1_r, Z.mod_1_r. reflexivity.
  - change (Nat.iter (S (S n)) shr_1 ?x) with (shr_1 (Nat.iter (S n) shr_1 x)).
    rewrite IH.
    assert (0 < 2 ^ Z.of_nat (S n)) by (apply Z.pow_pos_nonneg; lia).
    rewrite shr_1_nonneg by (apply Z.div_pos; lia).
    f_equal.
    + rewrite Z.div_div by lia.
      replace (Z.of_nat (S (S n))) with (Z.of_nat (S n) + 1) by lia.
      rewrite Z.pow_add_r by lia. reflexivity.
    + replace (Z.of_nat (S n)) with (Z.of_nat n + 1) by lia.
      rewrite mod_pow2_succ by lia.
      destruct (Z.odd (M / 2 ^ Z.of_nat n)), (M mod 2 ^ Z.of_nat n =? 0); reflexivity.
Qed.

Lemma shr_exact (M e n : Z) :
  0 <= M -> 0 < n ->
  shr {| shr_m := M; shr_r := false; shr_s := false |} e n
  = ({| shr_m := M / 2 ^ n;
        shr_r := Z.odd (M / 2 ^ (n - 1));
        shr_s := negb (M mod 2 ^ (n - 1) =? 0) |}, e + n).
Proof.
  intros HM Hn. destruct n as [|p|p]; try lia.
  unfold shr. rewrite iter_pos_nat.
  destruct (Pos.to_nat p) as [|k] eqn:Hk; [lia|].
  rewrite iter_shr_1 by lia.
  assert (Z.pos p = Z.of_nat (S k)) as -> by lia.
  replace (Z.of_nat (S k) - 1) with (Z.of_nat k) by lia.
  reflexivity.
Qed.

Lemma round_nearest_even_rne (m : Z) (r s : bool) :
  round_nearest_even m
    (loc_of_shr_record {| shr_m := m; shr_r := r; shr_s := s |})
  = rne m r s.
Proof. now destruct r, s. Qed.

Lemma fexp_64 (x : Z) : fexp prec emax x = Z.max (x - 53) (-1074).
Proof. reflexivity. Qed.

Lemma Zdigits2_mul_pow2 (M k : Z) :
  0 < M -> 0 <= k -> Zdigits2 (M * 2 ^ k) = Zdigits2 M + k.
Proof.
  intros HM Hk. pose proof (Zdigits2_bounds M HM) as [Hlo Hhi].
  assert (0 < Zdigits2 M) by (destruct M; simpl; lia).
  assert (0 < 2 ^ k) by (apply Z.pow_pos_nonneg; lia).
  apply Zdigits2_unique; [|nia].
  replace (Zdigits2 M + k - 1) with (Zdigits2 M - 1 + k) by lia.
  rewrite !Z.pow_add_r by lia. nia.
Qed.

Lemma Zdigits2_le (M d : Z) : 0 <= d -> 0 <= M < 2 ^ d -> Zdigits2 M <= d.
Proof.
  intros Hd [H0 HM]. destruct (Z.eq_dec M 0) as [->|Hne]; [simpl; lia|].
  pose proof (Zdigits2_bounds M ltac:(lia)) as [Hlo _].
  destruct (Z_lt_le_dec d (Zdigits2 M)) as [Hlt|]; [|assumption].
  assert (2 ^ d <= 2 ^ (Zdigits2 M - 1)) by (apply Z.pow_le_mono_r; lia). lia.
Qed.

Lemma rne_bounds (m : Z) (r s : bool) : m <= rne m r s <= m + 1.
Proof. unfold rne. destruct r, s, (Z.even m); lia. Qed.

Lemma round_shift_bounds (M n : Z) :
  0 < n -> M / 2 ^ n <= round_shift M n <= M / 2 ^ n + 1.
Proof.
  intros Hn. unfold round_shift.
  destruct (Z.leb_spec n 0); [lia|]. apply rne_bounds.
Qed.

(** Rounding an exact mantissa that is not above its canonical exponent. *)
Lemma binary_round_aux_exact (sx : bool) (M E : Z) :
  0 < M ->
  let f := fexp prec emax (Zdigits2 M + E) in
  E <= f -> f < 971 ->
  binary_round_aux prec emax sx M E loc_Exact
  = let q := round_shift M (f - E) in
    if q =? 0 then S754_zero sx
    else if q =? 2 ^ 53 then S754_finite sx (Z.to_pos (2 ^ 52)) (f + 1)
    else S754_finite sx (Z.to_pos q) f.
Proof.
  intros HM f HE Hf.
  pose proof (Zdigits2_bounds M HM) as [Hlo Hhi].
  assert (Hd : 0 < Zdigits2 M) by (destruct M; simpl; lia).
  assert (Hfd : Zdigits2 M + E - 53 <= f /\ -1074 <= f)
    by (unfold f; rewrite fexp_64; lia).
  unfold binary_round_aux, shr_fexp. fold f. cbv zeta.
  change (shr_record_of_loc M loc_Exact)
    with {| shr_m := M; shr_r := false; shr_s := false |}.
  (* the first shift and the rounding give [q] at exponent [f] *)
  assert (Hfirst :
    exists mrs, shr {| shr_m := M; shr_r := false; shr_s := false |} E (f - E)
                = (mrs, f)
             /\ round_nearest_even (shr_m mrs) (loc_of_shr_record mrs)
                = round_shift M (f - E)).
  { destruct (Z.eq_dec (f - E) 0) as [H0|Hn0].
    - rewrite H0. eexists. split; [simpl; f_equal; lia|]. reflexivity.
    - rewrite shr_exact by lia. eexists. split; [f_equal; lia|].
      rewrite round_nearest_even_rne. unfold round_shift.
      destruct (Z.leb_spec (f - E) 0); [lia|reflexivity]. }
  destruct Hfirst as (mrs & -> & ->).
  set (q := round_shift M (f - E)).
  assert (Hq : 0 <= q <= 2 ^ 53).
  { destruct (Z.eq_dec (f - E) 0) as [H0|Hn0].
    - unfold q. rewrite H0. unfold round_shift. simpl.
      assert (Zdigits2 M <= 53) by lia.
      assert (2 ^ Zdigits2 M <= 2 ^ 53) by (apply Z.pow_le_mono_r; lia). lia.
    - pose proof (round_shift_bounds M (f - E) ltac:(lia)) as Hb. fold q in Hb.
      assert (0 < 2 ^ (f - E)) by (apply Z.pow_pos_nonneg; lia).
      assert (0 <= M / 2 ^ (f - E)) by (apply Z.div_pos; lia).
      assert (M / 2 ^ (f - E) < 2 ^ 53); [|lia].
      apply Z.div_lt_upper_bound; [lia|].
      rewrite <- Z.pow_add_r by lia.
      assert (2 ^ Zdigits2 M <= 2 ^ (f - E + 53))
        by (apply Z.pow_le_mono_r; lia). lia. }
  change (shr_record_of_loc q loc_Exact)
    with {| shr_m := q; shr_r := false; shr_s := false |}.
  destruct (Z.eqb_spec q 0) as [Hq0|Hq0].
  - rewrite Hq0. simpl Zdigits2. rewrite fexp_64.
    assert (Z.max (0 + f - 53) (-1074) - f <= 0) by lia.
    destruct (Z.max (0 + f - 53) (-1074) - f) eqn:Hn; try lia; reflexivity.
  - destruct (Z.eqb_spec q (2 ^ 53)) as [Hq53|Hq53].
    + rewrite Hq53.
      change (Zdigits2 (2 ^ 53)) with 54. rewrite fexp_64.
      replace (Z.max (54 + f - 53) (-1074) - f) with 1 by lia.
      rewrite shr_exact by lia.
      change (shr_m _) with (2 ^ 53 / 2 ^ 1).
      change (2 ^ 53 / 2 ^ 1) with (Z.pos (Z.to_pos (2 ^ 52))).
      cbv iota beta.
      destruct (Z.leb_spec (f + 1) (emax - prec)) as [|Hov]; [reflexivity|].
      change (emax - prec) with 971 in Hov. lia.
    + assert (Hdq : Zdigits2 q <= 53) by (apply Zdigits2_le; lia).
      rewrite fexp_64.
      assert (Z.max (Zdigits2 q + f - 53) (-1074) - f <= 0) by lia.
      assert (Hshr : shr {| shr_m := q; shr_r := false; shr_s := false |} f
                       (Z.max (Zdigits2 q + f - 53) (-1074) - f)
                     = ({| shr_m := q; shr_r := false; shr_s := false |}, f)).
      { destruct (Z.max (Zdigits2 q + f - 53) (-1074) - f); try lia; reflexivity. }
      rewrite Hshr. simpl shr_m.
      destruct q as [|qp|qp]; try lia.
      destruct (Z.leb_spec f (emax - prec)) as [|Hov]; [reflexivity|].
      change (emax - prec) with 971 in Hov. lia.
Qed.

Lemma binary_round_spec (sx : bool) (M E : Z) :
  0 < M -> fexp prec emax (Zdigits2 M + E) < 971 ->
  binary_round prec emax sx (Z.to_pos M) E = round_spec sx M E.
Proof.
  intros HM Hf. unfold binary_round, round_spec.
  destruct M as [|m|m]; try lia. change (Z.to_pos (Z.pos m)) with m.
  change (Z.pos (digits2_pos m)) with (Zdigits2 (Z.pos m)).
  set (f := fexp prec emax (Zdigits2 (Z.pos m) + E)) in *.
  pose proof (shl_align_fst m E f) as Hfst.
  pose proof (shl_align_snd m E f) as Hsnd.
  assert (Hd : 0 < Zdigits2 (Z.pos m)) by (simpl; lia).
  assert (Hfd : Zdigits2 (Z.pos m) + E - 53 <= f /\ -1074 <= f)
    by (unfold f; rewrite fexp_64; lia).
  destruct (Z.leb_spec f E) as [Hle|Hgt].
  - destruct (shl_align m E f) as [mz ez]. cbn [fst snd] in Hfst, Hsnd.
    specialize (Hfst Hle). specialize (Hsnd Hle). subst ez.
    assert (Hdz : Zdigits2 (Z.pos mz) = Zdigits2 (Z.pos m) + (E - f))
      by (rewrite Hfst; apply Zdigits2_mul_pow2; lia).
    assert (Hfz : fexp prec emax (Zdigits2 (Z.pos mz) + f) = f).
    { rewrite Hdz. replace (Zdigits2 (Z.pos m) + (E - f) + f)
        with (Zdigits2 (Z.pos m) + E) by lia. reflexivity. }
    rewrite binary_round_aux_exact; rewrite ?Hfz; try lia.
    cbv zeta. rewrite Z.sub_diag. unfold round_shift.
    change (0 <=? 0) with true. cbv iota.
    assert (Hlt : Z.pos mz < 2 ^ 53).
    { pose proof (Zdigits2_bounds (Z.pos mz) ltac:(lia)) as [_ Hhi].
      assert (Zdigits2 (Z.pos mz) <= 53) by (rewrite fexp_64 in Hfz; lia).
      assert (2 ^ Zdigits2 (Z.pos mz) <= 2 ^ 53)
        by (apply Z.pow_le_mono_r; lia). lia. }
    destruct (Z.eqb_spec (Z.pos mz) 0); [lia|].
    destruct (Z.eqb_spec (Z.pos mz) (2 ^ 53)); [lia|].
    rewrite <- Hfst. reflexivity.
  - unfold shl_align. destruct (f - E) as [|p|p] eqn:Hfe; try lia.
    cbv iota beta.
    rewrite binary_round_aux_exact; fold f; try lia.
    now rewrite Hfe.
Qed.

Lemma round_shift_cases (M n hi lo : Z) :
  0 < n -> M = hi * 2 ^ n + lo -> 0 <= lo < 2 ^ n ->
  round_shift M n
  = if 2 * lo <? 2 ^ n then hi
    else if 2 ^ n <? 2 * lo then hi + 1
    else if Z.even hi then hi else hi + 1.
Proof.
  intros Hn HM Hlo. unfold round_shift.
  destruct (Z.leb_spec n 0); [lia|].
  assert (HP : 2 ^ n = 2 * 2 ^ (n - 1)).
  { rewrite <- Z.pow_succ_r by lia. f_equal. lia. }
  assert (0 < 2 ^ (n - 1)) by (apply Z.pow_pos_nonneg; lia).
  set (P2 := 2 ^ (n - 1)) in *.
  assert (Hhi : M / 2 ^ n = hi).
  { symmetry. apply Z.div_unique with (r := lo); lia. }
  rewrite Hhi.
  destruct (Z.ltb_spec (2 * lo) (2 ^ n)) as [Hlt|Hge].
  - assert (M / P2 = 2 * hi) as ->.
    { symmetry. apply Z.div_unique with (r := lo); lia. }
    rewrite Z.odd_mul. change (Z.odd 2) with false. reflexivity.
  - assert (M / P2 = 2 * hi + 1) as ->.
    { symmetry. apply Z.div_unique with (r := lo - P2); lia. }
    assert (M mod P2 = lo - P2) as ->.
    { symmetry. apply Z.mod_unique with (q := 2 * hi + 1); lia. }
    rewrite Z.odd_add, Z.odd_mul.
    change (Z.odd 2) with false. change (Z.odd 1) with true.
    cbn [andb xorb]. unfold rne.
    destruct (Z.ltb_spec (2 ^ n) (2 * lo)) as [Hgt|Hle].
    + destruct (Z.eqb_spec (lo - P2) 0); [lia|reflexivity].
    + destruct (Z.eqb_spec (lo - P2) 0); [reflexivity|lia].
Qed.

Lemma SFadd_pos (mx my : positive) (ex ey : Z) :
  SFadd prec emax (S754_finite false mx ex) (S754_finite false my ey)
  = binary_round prec emax false
      (Z.to_pos (Z.pos mx * 2 ^ (ex - Z.min ex ey)
                 + Z.pos my * 2 ^ (ey - Z.min ex ey)))
      (Z.min ex ey).
Proof.
  unfold SFadd, cond_Zopp.
  rewrite <- !shl_align_fst by lia. reflexivity.
Qed.

Lemma SFsub_pos (mx my : positive) (ex ey : Z) :
  0 < Z.pos mx * 2 ^ (ex - Z.min ex ey) - Z.pos my * 2 ^ (ey - Z.min ex ey) ->
  SFsub prec emax (S754_finite false mx ex) (S754_finite false my ey)
  = binary_round prec emax false
      (Z.to_pos (Z.pos mx * 2 ^ (ex - Z.min ex ey)
                 - Z.pos my * 2 ^ (ey - Z.min ex ey)))
      (Z.min ex ey).
Proof.
  intros HD. unfold SFsub, cond_Zopp. cbv zeta.
  rewrite <- !shl_align_fst in * by lia.
  destruct (Z.pos (fst (shl_align mx ex (Z.min ex ey)))
            - Z.pos (fst (shl_align my ey (Z.min ex ey)))) as [|d|d];
    try lia; reflexivity.
Qed.

(** An integer within half a unit in the last place of [2 ^ 53] units
    rounds to 1. *)
Lemma round_spec_near_one (X E : Z) :
  E <= -53 ->
  2 * Z.abs (X - 2 ^ 53 * 2 ^ (-53 - E)) <= 2 ^ (-53 - E) ->
  round_spec false X E = SF_one.
Proof.
  intros HE Hnear.
  assert (HP : 0 < 2 ^ (-53 - E)) by (apply Z.pow_pos_nonneg; lia).
  set (n := -53 - E) in *. set (P := 2 ^ n) in *.
  destruct (Z_lt_le_dec X (2 ^ 53 * P)) as [Hlt|Hge].
  - (* just below: [2 ^ 53 - 1] units and at least half of one, up to 2 ^ 53 *)
    assert (Hn : 0 < n).
    { destruct (Z.eq_dec n 0) as [Hn0|]; [|lia].
      assert (P = 1) by (unfold P; rewrite Hn0; reflexivity). lia. }
    assert (HP2 : P = 2 * 2 ^ (n - 1)).
    { unfold P. rewrite <- Z.pow_succ_r by lia. f_equal. lia. }
    assert (0 < 2 ^ (n - 1)) by (apply Z.pow_pos_nonneg; lia).
    assert (Hd : Zdigits2 X = 53 + n).
    { apply Zdigits2_unique; [|lia].
      replace (53 + n - 1) with (52 + n) by lia.
      rewrite !Z.pow_add_r by lia. fold P. lia. }
    unfold round_spec. rewrite Hd, fexp_64.
    replace (Z.max (53 + n + E - 53) (-1074)) with (-53) by lia.
    destruct (Z.leb_spec (-53) E); [lia|].
    replace (-53 - E) with n by lia.
    rewrite (round_shift_cases X n (2 ^ 53 - 1) (X - (2 ^ 53 - 1) * P))
      by (fold P; lia).
    fold P.
    destruct (Z.ltb_spec (2 * (X - (2 ^ 53 - 1) * P)) P); [lia|].
    replace (if P <? 2 * (X - (2 ^ 53 - 1) * P) then 2 ^ 53 - 1 + 1
             else if Z.even (2 ^ 53 - 1) then 2 ^ 53 - 1 else 2 ^ 53 - 1 + 1)
      with (2 ^ 53)
      by (destruct (P <? 2 * (X - (2 ^ 53 - 1) * P)); reflexivity).
    reflexivity.
  - (* at or just above: 2 ^ 52 double units and at most a quarter of one *)
    assert (Hd : Zdigits2 X = 54 + n).
    { apply Zdigits2_unique; [|lia].
      replace (54 + n - 1) with (53 + n) by lia.
      rewrite !Z.pow_add_r by lia. fold P. lia. }
    unfold round_spec. rewrite Hd, fexp_64.
    replace (Z.max (54 + n + E - 53) (-1074)) with (-52) by lia.
    destruct (Z.leb_spec (-52) E); [lia|].
    replace (-52 - E) with (n + 1) by lia.
    assert (HP1 : 2 ^ (n + 1) = 2 * P)
      by (rewrite Z.pow_add_r by lia; fold P; lia).
    rewrite (round_shift_cases X (n + 1) (2 ^ 52) (X - 2 ^ 52 * (2 * P)))
      by (rewrite ?HP1; lia).
    rewrite HP1.
    destruct (Z.ltb_spec (2 * (X - 2 ^ 52 * (2 * P))) (2 * P)); [|lia].
    reflexivity.
Qed.

Lemma round_shift_near (M n : Z) :
  0 < n -> 2 * Z.abs (round_shift M n * 2 ^ n - M) <= 2 ^ n.
Proof.
  intros Hn.
  assert (HP : 0 < 2 ^ n) by (apply Z.pow_pos_nonneg; lia).
  pose proof (Z.div_mod M (2 ^ n) ltac:(lia)) as Hdm.
  pose proof (Z.mod_pos_bound M (2 ^ n) HP) as Hlo.
  rewrite (round_shift_cases M n (M / 2 ^ n) (M mod 2 ^ n)) by lia.
  destruct (Z.ltb_spec (2 * (M mod 2 ^ n)) (2 ^ n)); [nia|].
  destruct (Z.ltb_spec (2 ^ n) (2 * (M mod 2 ^ n))); [nia|].
  destruct (Z.even (M / 2 ^ n)); nia.
Qed.

(** For a binary64 [h] below 1, [(1 - h) + h] is 1: the subtraction is off
    by at most half a unit in the last place, which the addition rounds
    away. *)
Lemma one_sub_add (mh : positive) (eh : Z) :
  bounded prec emax mh eh = true -> eh <= -53 ->
  SFadd prec emax
    (SFsub prec emax SF_one (S754_finite false mh eh))
    (S754_finite false mh eh)
  = SF_one.
Proof.
  intros Hb He.
  apply andb_prop in Hb as [Hcan _]. apply Z.eqb_eq in Hcan.
  rewrite fexp_64 in Hcan.
  pose proof (digits2_pos_bounds mh) as [Hlo Hhi].
  set (dh := Z.pos (digits2_pos mh)) in *.
  assert (Hdh : 0 < dh <= 53) by lia.
  assert (Hmh : Z.pos mh < 2 ^ 53).
  { assert (2 ^ dh <= 2 ^ 53) by (apply Z.pow_le_mono_r; lia). lia. }
  set (n := -53 - eh).
  assert (HP : 0 < 2 ^ n) by (apply Z.pow_pos_nonneg; lia).
  assert (HT : 2 ^ (-52 - eh) = 2 * 2 ^ n).
  { replace (-52 - eh) with (Z.succ n) by lia. apply Z.pow_succ_r. lia. }
  unfold SF_one at 1. rewrite SFsub_pos; rewrite Z.min_r by lia;
    rewrite Z.sub_diag, Z.pow_0_r, Z.mul_1_r, HT;
    change (Z.pos 4503599627370496) with (2 ^ 52).
  2: { destruct (Z.eq_dec n 0) as [Hn0|Hn0]; [|nia].
       assert (2 ^ n = 1) as -> by (rewrite Hn0; reflexivity). lia. }
  set (P := 2 ^ n) in *.
  set (D := 2 ^ 52 * (2 * P) - Z.pos mh).
  destruct (Z.eq_dec n 0) as [Hn0|Hn0].
  - (* [h] in [1/2, 1): the difference is exact *)
    assert (HP1 : P = 1) by (unfold P; rewrite Hn0; reflexivity).
    assert (dh = 53) by lia.
    assert (HD : 0 < D <= 2 ^ 52).
    { unfold D. rewrite HP1. subst dh. rewrite H in Hlo.
      change (2 ^ (53 - 1)) with (2 ^ 52) in Hlo. lia. }
    pose proof (Zdigits2_bounds D ltac:(lia)) as [HDlo HDhi].
    assert (HdD : 0 < Zdigits2 D <= 53).
    { split; [destruct D; simpl; lia|].
      destruct (Z_lt_le_dec 53 (Zdigits2 D)) as [Hlt|]; [|lia].
      assert (2 ^ 53 <= 2 ^ (Zdigits2 D - 1)) by (apply Z.pow_le_mono_r; lia).
      lia. }
    rewrite binary_round_spec by (rewrite ?fexp_64; lia).
    unfold round_spec. rewrite fexp_64.
    replace (Z.max (Zdigits2 D + eh - 53) (-1074)) with (Zdigits2 D - 106) by lia.
    destruct (Z.leb_spec (Zdigits2 D - 106) eh); [|lia].
    set (k := eh - (Zdigits2 D - 106)).
    assert (Hk : 0 < 2 ^ k) by (apply Z.pow_pos_nonneg; lia).
    rewrite SFadd_pos. rewrite Z.min_l by lia.
    rewrite Z.sub_diag, Z.pow_0_r, Z.mul_1_r.
    rewrite Z2Pos.id by nia. fold k.
    rewrite binary_round_spec.
    + apply round_spec_near_one; [lia|].
      replace (-53 - (Zdigits2 D - 106)) with k by lia.
      replace (D * 2 ^ k + Z.pos mh * 2 ^ k - 2 ^ 53 * 2 ^ k) with 0
        by (unfold D; rewrite HP1; lia).
      simpl Z.abs. lia.
    + nia.
    + replace (D * 2 ^ k + Z.pos mh * 2 ^ k) with (2 ^ 53 * 2 ^ k)
        by (unfold D; rewrite HP1; lia).
      rewrite Zdigits2_mul_pow2 by lia.
      change (Zdigits2 (2 ^ 53)) with 54.
      rewrite fexp_64. lia.
  - (* [h] below 1/2: the difference is rounded to 53 bits *)
    assert (Hn : 0 < n) by lia.
    assert (HP2 : 2 <= P).
    { unfold P. replace n with (Z.succ (n - 1)) by lia.
      rewrite Z.pow_succ_r by lia.
      assert (0 < 2 ^ (n - 1)) by (apply Z.pow_pos_nonneg; lia). lia. }
    assert (HD : 2 ^ 52 * P <= D < 2 ^ 53 * P) by (unfold D; nia).
    assert (HdD : Zdigits2 D = 53 + n).
    { apply Zdigits2_unique; [|nia].
      replace (53 + n - 1) with (52 + n) by lia.
      rewrite !Z.pow_add_r by lia. fold P. lia. }
    rewrite binary_round_spec by (rewrite ?HdD, ?fexp_64; nia).
    unfold round_spec. rewrite HdD, fexp_64.
    replace (Z.max (53 + n + eh - 53) (-1074)) with (-53) by lia.
    destruct (Z.leb_spec (-53) eh); [lia|].
    replace (-53 - eh) with n by lia.
    pose proof (round_shift_near D n Hn) as Hnear. fold P in Hnear.
    pose proof (round_shift_bounds D n Hn) as Hq. fold P in Hq.
    assert (HDP : 2 ^ 52 <= D / P < 2 ^ 53).
    { split; [apply Z.div_le_lower_bound; lia|apply Z.div_lt_upper_bound; lia]. }
    set (q := round_shift D n) in *.
    destruct (Z.eqb_spec q 0); [lia|].
    assert (Hsum :
      forall a, (a = S754_finite false (Z.to_pos (2 ^ 52)) (-53 + 1) /\ q = 2 ^ 53
            \/ a = S754_finite false (Z.to_pos q) (-53) /\ q < 2 ^ 53) ->
           SFadd prec emax a (S754_finite false mh eh)
           = binary_round prec emax false (Z.to_pos (q * P + Z.pos mh)) eh).
    { intros a [[-> Hq53]|[-> Hq53]]; rewrite SFadd_pos; rewrite Z.min_r by lia;
        rewrite Z.sub_diag, Z.pow_0_r, Z.mul_1_r.
      - change (-53 + 1 - eh) with (-52 - eh). rewrite HT. fold P.
        rewrite Hq53. do 2 f_equal.
        change (Z.pos (Z.to_pos (2 ^ 52))) with (2 ^ 52). lia.
      - rewrite Z2Pos.id by lia. fold n. fold P. reflexivity. }
    rewrite (Hsum _).
    2: { destruct (Z.eqb_spec q (2 ^ 53)); [left|right]; split; try reflexivity; lia. }
    assert (HS : 2 ^ 53 * P - P <= q * P + Z.pos mh <= 2 ^ 53 * P + P)
      by (unfold D in *; lia).
    rewrite binary_round_spec.
    + apply round_spec_near_one; [lia|]. fold n. fold P.
      replace (q * P + Z.pos mh - 2 ^ 53 * P) with (q * P - D)
        by (unfold D; lia).
      exact Hnear.
    + nia.
    + assert (Zdigits2 (q * P + Z.pos mh) <= 55 + n).
      { apply Zdigits2_le; [lia|]. split; [nia|].
        replace (55 + n) with (n + 55) by lia.
        rewrite Z.pow_add_r by lia. fold P. lia. }
      rewrite fexp_64. lia.
Qed.

Lemma SFleb_finite_pos (m1 m2 : positive) (e1 e2 : Z) :
  SFleb (S754_finite false m1 e1) (S754_finite false m2 e2)
  = match e1 ?= e2 with
    | Lt => true
    | Gt => false
    | Eq => match (m1 ?= m2)%positive with Gt => false | _ => true end
    end.
Proof. unfold SFleb, SFcompare. destruct (e1 ?= e2); reflexivity. Qed.

(** A spec float above zero and at most one is a positive finite number
    with a smaller exponent than 1, or the mantissa of 1 at most. *)
Lemma SF_unit_interval (x : spec_float) :
  SFltb (S754_zero false) x = true -> SFleb x SF_one = true ->
  exists m e, x = S754_finite false m e
    /\ (e < -52 \/ e = -52 /\ (m <= 4503599627370496)%positive).
Proof.
  intros Hpos Hle.
  destruct x as [s|s| |s m e].
  - destruct s; discriminate Hpos.
  - destruct s; [discriminate Hpos|discriminate Hle].
  - discriminate Hpos.
  - destruct s; [discriminate Hpos|].
    exists m, e. split; [reflexivity|].
    unfold SF_one in Hle. rewrite SFleb_finite_pos in Hle.
    destruct (Z.compare_spec e (-52)) as [He|He|He].
    + right. split; [assumption|].
      intros Hgt. rewrite Hgt in Hle. discriminate Hle.
    + left. assumption.
    + discriminate Hle.
Qed.

Lemma bounded_digits (m : positive) (e : Z) :
  bounded prec emax m e = true ->
  Z.max (Z.pos (digits2_pos m) + e - 53) (-1074) = e.
Proof.
  intros Hb. apply andb_prop in Hb as [Hcan _].
  apply Z.eqb_eq in Hcan. rewrite fexp_64 in Hcan. exact Hcan.
Qed.

(** The only binary64 number with the exponent of 1 that is at most 1. *)
Lemma bounded_one (m : positive) :
  bounded prec emax m (-52) = true -> (m <= 4503599627370496)%positive ->
  m = 4503599627370496%positive.
Proof.
  intros Hb. apply bounded_digits in Hb.
  pose proof (digits2_pos_bounds m) as [Hlo _].
  assert (Hd : Z.pos (digits2_pos m) = 53) by lia.
  rewrite Hd in Hlo. change (2 ^ (53 - 1)) with (Z.pos 4503599627370496) in Hlo.
  intros Hle. apply Pos2Z.pos_le_pos in Hle.
  apply Pos2Z.inj. apply Z.le_antisymm; assumption.
Qed.

(** Halving a binary64 number below 1 gives zero or a positive number
    below 1. *)
Lemma SFmul_half (m : positive) (e : Z) :
  bounded prec emax m e = true -> e <= -53 ->
  SFmul prec emax (S754_finite false m e)
    (S754_finite false 4503599627370496 (-53)) = S754_zero false
  \/ exists mh eh,
       SFmul prec emax (S754_finite false m e)
         (S754_finite false 4503599627370496 (-53))
       = S754_finite false mh eh /\ eh <= -53.
Proof.
  intros Hb He. apply bounded_digits in Hb.
  pose proof (digits2_pos_bounds m) as [Hlo Hhi].
  set (dm := Z.pos (digits2_pos m)) in *.
  assert (Hdm : 0 < dm) by (unfold dm; lia).
  unfold SFmul. change (xorb false false) with false.
  rewrite Pos2Z.inj_mul. change (Z.pos 4503599627370496) with (2 ^ 52).
  assert (HM : 0 < Z.pos m * 2 ^ 52) by lia.
  assert (Hd : Zdigits2 (Z.pos m * 2 ^ 52) = dm + 52)
    by (rewrite Zdigits2_mul_pow2 by lia; reflexivity).
  rewrite binary_round_aux_exact; rewrite ?Hd, ?fexp_64; try lia.
  cbv zeta.
  set (f := Z.max (dm + 52 + (e + -53) - 53) (-1074)).
  assert (dm <= 53) by lia.
  assert (Hf : f <= -54) by (unfold f; lia).
  destruct (_ =? 0); [left; reflexivity|right].
  destruct (_ =? 2 ^ 53); eexists _, _; (split; [reflexivity|lia]).
Qed.

(** The two volume fractions a silicon percentage in (0, 1] is split into
    add up to exactly 1 in binary64. *)
Lemma half_split_sum (p : float) :
  PrimFloat.ltb 0 p = true -> PrimFloat.leb p 1 = true ->
  ((1 - p * 0.5) + p * 0.5)%float = 1%float.
Proof.
  intros Hpos Hle.
  rewrite ltb_spec in Hpos. rewrite leb_spec in Hle.
  destruct (SF_unit_interval _ Hpos Hle) as (m & e & Hp & He).
  pose proof (Prim2SF_valid p) as Hvalid. rewrite Hp in Hvalid.
  destruct He as [He|[He Hm]].
  - pose proof (Prim2SF_valid (p * 0.5)) as Hvh.
    assert (Hmul : Prim2SF (p * 0.5)
                   = SFmul prec emax (S754_finite false m e)
                       (S754_finite false 4503599627370496 (-53)))
      by (rewrite mul_spec, Hp; reflexivity).
    apply Prim2SF_inj. rewrite add_spec, sub_spec.
    change (Prim2SF 1) with SF_one.
    destruct (SFmul_half m e Hvalid ltac:(lia)) as [Hz|(mh & eh & Hh & Heh)].
    + rewrite Hmul, Hz. reflexivity.
    + rewrite Hmul, Hh in *. apply one_sub_add; assumption.
  - subst e. apply bounded_one in Hvalid; [|assumption]. subst m.
    assert (p = 1%float) as -> by (apply Prim2SF_inj; rewrite Hp; reflexivity).
    reflexivity.
Qed.

(** ** The silicon percentage *)

Lemma float_pos_nonzero (p : float) :
  PrimFloat.ltb 0 p = true → PrimFloat.eqb p 0 = false.
Proof.
  rewrite ltb_spec, FloatAxioms.eqb_spec.
  change (Prim2SF 0) with (S754_zero false).
  destruct (Prim2SF p) as [[]|[]| |[] m e]; try discriminate; reflexivity.
Qed.

Lemma float_of_int_zero : float_of_int 0 = Ok 0%float.
Proof. reflexivity. Qed.

(** A number above zero is taken as given. *)
Lemma number_pos_truthy (x : value) (n : number) (p : float) :
  as_number x = Some n → to_float n = Ok p →
  PrimFloat.ltb 0 p = true →
  truthy x = true ∧ mul_float x 0.5 = Ok (p * 0.5)%float.
Proof.
  intros Hn Hp Hpos. split.
  - destruct x as [| b | z | f | s | l | items]; try discriminate Hn;
      injection Hn as <-.
    + destruct b; [done|]. change (float_of_int 0 = Ok p) in Hp.
      rewrite float_of_int_zero in Hp. injection Hp as <-. discriminate Hpos.
    + cbn [truthy]. destruct (Z.eqb_spec z 0) as [->|]; [|done].
      change (float_of_int 0 = Ok p) in Hp.
      rewrite float_of_int_zero in Hp. injection Hp as <-. discriminate Hpos.
    + injection Hp as ->. cbn [truthy]. by rewrite (float_pos_nonzero p Hpos).
  - unfold mul_float. by rewrite Hn, Hp.
Qed.

(** C6 as stated fails at [p = 0], which lies in [0, 1]: a zero percentage
    is taken as not given, so nothing is derived and the base fractions stay
    (here 0.735 and 0.015, not 1 and 0, and they do not add up to 1). *)
Lemma silicon_percentage_zero_not_split :
  let run :=
    update_parameters example_float_of_str PNone PNone PNone (PFloat 0)
      example_base in
  PrimFloat.leb 0 0 = true
  ∧ PrimFloat.leb 0 1 = true
  ∧ run.1 !! "Primary: Negative electrode active material volume fraction"
    = Some (PFloat 0.735)
  ∧ run.1 !! "Secondary: Negative electrode active material volume fraction"
    = Some (PFloat 0.015)
  ∧ PrimFloat.eqb 0.735 (1 - 0 * 0.5) = false
  ∧ PrimFloat.eqb (0.735 + 0.015) 1 = false.
Proof. repeat split; vm_compute; reflexivity. Qed.

(** C6 (amended): a silicon percentage that is a number [p] with
    [0 < p <= 1] (a float, or the integer 1) is split into the primary
    fraction [1 - p * 0.5] and the secondary fraction [p * 0.5], which add
    up to exactly 1 in binary64 arithmetic; the merge writes both and
    completes when the base set holds both fractions and the overrides
    before it were applied without error.  For [p = 0], as for any
    percentage that is absent, zero or empty, nothing is derived and the
    base fractions are kept; nothing is derived either when an override
    before it raises, and a base set that lacks the primary fraction makes
    the merge raise [KeyError]. *)
Theorem silicon_percentage_split :
  ∀ float_of_str (base : gmap string value)
    temperature capacity thickness silicon,
    let before :=
      update_parameters float_of_str temperature capacity thickness PNone
        base in
    let run :=
      update_parameters float_of_str temperature capacity thickness silicon
        base in
    (∀ n p,
       as_number silicon = Some n → to_float n = Ok p →
       PrimFloat.ltb 0 p = true → PrimFloat.leb p 1 = true →
       ((1 - p * 0.5) + p * 0.5)%float = 1%float
       ∧ (before.2 = Ok () →
          (is_Some (base !! "Primary: Negative electrode active material volume fraction") →
           is_Some (base !! "Secondary: Negative electrode active material volume fraction") →
           run.2 = Ok ()
           ∧ run.1 !! "Primary: Negative electrode active material volume fraction"
             = Some (PFloat (1 - p * 0.5))
           ∧ run.1 !! "Secondary: Negative electrode active material volume fraction"
             = Some (PFloat (p * 0.5)))
          ∧ (base !! "Primary: Negative electrode active material volume fraction"
             = None →
             run = (before.1,
                    Raise (KeyError "Primary: Negative electrode active material volume fraction")))))
    ∧ (truthy silicon = false →
       run = before
       ∧ run.1 !! "Primary: Negative electrode active material volume fraction"
         = base !! "Primary: Negative electrode active material volume fraction"
       ∧ run.1 !! "Secondary: Negative electrode active material volume fraction"
         = base !! "Secondary: Negative electrode active material volume fraction")
    ∧ (silicon = PFloat 0 ∨ silicon = PFloat (-0) ∨ silicon = PInt 0 →
       run = before
       ∧ run.1 !! "Primary: Negative electrode active material volume fraction"
         = base !! "Primary: Negative electrode active material volume fraction"
       ∧ run.1 !! "Secondary: Negative electrode active material volume fraction"
         = base !! "Secondary: Negative electrode active material volume fraction")
    ∧ (∀ e, before.2 = Raise e →
       run = before
       ∧ run.1 !! "Primary: Negative electrode active material volume fraction"
         = base !! "Primary: Negative electrode active material volume fraction"
       ∧ run.1 !! "Secondary: Negative electrode active material volume fraction"
         = base !! "Secondary: Negative electrode active material volume fraction").
Proof.
  intros float_of_str base temperature capacity thickness silicon before run.
  assert (Hbefore : ∀ k,
    k = "Primary: Negative electrode active material volume fraction"
    ∨ k = "Secondary: Negative electrode active material volume fraction" →
    before.1 !! k = base !! k).
  { intros k Hk. subst before.
    apply merge_other; [right|right|right|by left]; by destruct Hk as [-> | ->]. }
  assert (Hrun : run
    = match before with
      | (p, Ok _) => update_parameters float_of_str PNone PNone PNone silicon p
      | (p, Raise e) => (p, Raise e)
      end)
    by apply merge_before_silicon.
  split; [|split; [|split]].
  - intros n p Hn Hp Hpos Hle.
    destruct (number_pos_truthy silicon n p Hn Hp Hpos) as [Htruthy Hhalf].
    split; [by apply half_split_sum|].
    intros Hok.
    assert (Hstep : run
      = match update_item float_of_str
                "Primary: Negative electrode active material volume fraction"
                (PFloat (1 - p * 0.5)) before.1 with
        | (q, Ok _) =>
            update_item float_of_str
              "Secondary: Negative electrode active material volume fraction"
              (PFloat (p * 0.5)) q
        | (q, Raise e) => (q, Raise e)
        end).
    { rewrite Hrun. destruct before as [q [[]|e]]; [|discriminate Hok].
      simpl. by rewrite merge_silicon, Htruthy, Hhalf. }
    split.
    + intros Hprimary Hsecondary.
      rewrite Hstep, update_item_present by (by rewrite Hbefore; auto).
      simpl. rewrite update_item_present
        by (rewrite lookup_insert_ne by done; rewrite Hbefore; auto).
      simpl. split; [done|]. split.
      * rewrite lookup_insert_ne by done. by rewrite lookup_insert_eq.
      * by rewrite lookup_insert_eq.
    + intros Hprimary.
      by rewrite Hstep, update_item_missing by (by rewrite Hbefore; auto).
  - intros Hs.
    assert (Heq : run = before).
    { rewrite Hrun. destruct before as [q [[]|e]]; [|done].
      by rewrite merge_silicon, Hs. }
    rewrite Heq. split; [done|]. split; apply Hbefore; auto.
  - intros Hzero.
    assert (Hs : truthy silicon = false)
      by (by destruct Hzero as [-> | [-> | ->]]).
    assert (Heq : run = before).
    { rewrite Hrun. destruct before as [q [[]|e]]; [|done].
      by rewrite merge_silicon, Hs. }
    rewrite Heq. split; [done|]. split; apply Hbefore; auto.
  - intros e He.
    assert (Heq : run = before).
    { rewrite Hrun. by destruct before as [q [[]|e']]; [discriminate He|]. }
    rewrite Heq. split; [done|]. split; apply Hbefore; auto.
Qed.

Lemma silicon_percentage_split_witness :
  let run :=
    update_parameters example_float_of_str (PInt 298) PNone PNone (PFloat 0.3)
      example_base in
  let whole :=
    update_parameters example_float_of_str PNone (PFloat 2) PNone (PInt 1)
      example_base in
  run.2 = Ok ()
  ∧ run.1 !! "Primary: Negative electrode active material volume fraction"
    = Some (PFloat 0.85)
  ∧ run.1 !! "Secondary: Negative electrode active material volume fraction"
    = Some (PFloat 0.15)
  ∧ (0.85 + 0.15)%float = 1%float
  ∧ whole.1 !! "Primary: Negative electrode active material volume fraction"
    = Some (PFloat 0.5)
  ∧ whole.1 !! "Secondary: Negative electrode active material volume fraction"
    = Some (PFloat 0.5).
Proof.
  destruct (silicon_percentage_split example_float_of_str example_base
              (PInt 298) PNone PNone (PFloat 0.3)) as (Hsplit & _).
  destruct (Hsplit (NFloat 0.3) 0.3%float eq_refl eq_refl eq_refl eq_refl)
    as (Hsum & Hrun).
  destruct (Hrun ltac:(vm_compute; reflexivity)) as [Hrun' _].
  destruct (Hrun' ltac:(by eexists) ltac:(by eexists))
    as (Hok & Hprimary & Hsecondary).
  destruct (silicon_percentage_split example_float_of_str example_base
              PNone (PFloat 2) PNone (PInt 1)) as (Hwhole & _).
  destruct (Hwhole (NInt 1) 1%float eq_refl eq_refl eq_refl eq_refl)
    as (_ & Hrun1).
  destruct (Hrun1 ltac:(vm_compute; reflexivity)) as [Hrun1' _].
  destruct (Hrun1' ltac:(by eexists) ltac:(by eexists))
    as (_ & Hprimary1 & Hsecondary1).
  split; [exact Hok|]. split; [exact Hprimary|]. split; [exact Hsecondary|].
  split; [exact Hsum|]. split; [exact Hprimary1 | exact Hsecondary1].
Defined.

(** * Further properties of the code *)

(** ** Thinning an array *)

Lemma remove_every_other_pair {A} (x y : A) (l : list A) :
  remove_every_other_from_array (x :: y :: l)
  = x :: remove_every_other_from_array l.
Proof. reflexivity. Qed.

Lemma remove_every_other_spec {A} (n : nat) :
  ∀ l : list A, (length l ≤ n)%nat →
    length (remove_every_other_from_array l) = Nat.div2 (length l + 1)
    ∧ ∀ i, remove_every_other_from_array l !! i = l !! (2 * i)%nat.
Proof.
  induction n as [|n IH]; intros l Hlen.
  - destruct l; [|simpl in Hlen; lia]. split; [reflexivity|].
    intros i. by rewrite !lookup_nil.
  - destruct l as [|x [|y l]].
    + split; [reflexivity|]. intros i. by rewrite !lookup_nil.
    + split; [reflexivity|]. intros [|i]; [reflexivity|].
      simpl. by rewrite !lookup_nil.
    + rewrite remove_every_other_pair.
      destruct (IH l) as [IHlen IHget]; [simpl in Hlen; lia|].
      split.
      * simpl length. rewrite IHlen.
        replace (S (S (length l)) + 1)%nat with (S (S (length l + 1))) by lia.
        reflexivity.
      * intros [|i]; [reflexivity|].
        replace (2 * S i)%nat with (S (S (2 * i))) by lia.
        simpl. apply IHget.
Qed.

(** X1: [list[::2]] keeps the elements at the even positions: element [i] of
    the result is element [2 i] of the input, and the result has half the
    length, rounded up. *)
Theorem remove_every_other_keeps_even_positions :
  ∀ {A} (l : list A),
    length (remove_every_other_from_array l) = Nat.div2 (length l + 1)
    ∧ ∀ i, remove_every_other_from_array l !! i = l !! (2 * i)%nat.
Proof. intros A l. by apply (remove_every_other_spec (length l)). Qed.

(** ** Loading a base parameter set *)

(** X2: for a battery type that is not a key of [batteries] the lookup
    raises [KeyError] with that name, whatever the degradation flag, and
    whatever the parameter loader would do. *)
Theorem get_battery_parameters_unknown_type :
  ∀ ParameterValues battery_type degradation_enabled,
    battery_type ∉ batteries.*1 →
    get_battery_parameters ParameterValues battery_type degradation_enabled
    = Raise (KeyError battery_type).
Proof.
  intros ParameterValues battery_type degradation_enabled Hnot.
  unfold get_battery_parameters.
  assert (Hlookup : dict_lookup batteries battery_type
                    = Raise (KeyError battery_type)).
  { unfold batteries in *. cbn [fmap list_fmap fst] in Hnot. cbn [dict_lookup].
    repeat match goal with
      | |- context [String.eqb ?k battery_type] =>
          destruct (String.eqb_spec k battery_type) as [<-|_];
          [exfalso; apply Hnot; rewrite !elem_of_cons; auto 10|]
      end.
    reflexivity. }
  by rewrite Hlookup.
Qed.

Lemma get_battery_parameters_unknown_type_witness :
  get_battery_parameters example_ParameterValues "LiPo" true
  = Raise (KeyError "LiPo").
Proof.
  apply get_battery_parameters_unknown_type.
  simpl. rewrite !elem_of_cons, elem_of_nil.
  intros [H|[H|[H|[H|[H|[H|H]]]]]]; try discriminate H. exact H.
Defined.

(** X3: the degradation flag changes the result for LFP only: for every
    other battery type the function returns the same with and without it. *)
Theorem degradation_only_changes_lfp :
  ∀ ParameterValues battery_type,
    battery_type ≠ "LFP" →
    get_battery_parameters ParameterValues battery_type true
    = get_battery_parameters ParameterValues battery_type false.
Proof.
  intros ParameterValues battery_type Hne. unfold get_battery_parameters.
  destruct (dict_lookup batteries battery_type) as [set_name|e]; [|reflexivity].
  simpl. destruct (ParameterValues set_name) as [parameters|e]; [|reflexivity].
  simpl. apply String.eqb_neq in Hne. rewrite Hne.
  by destruct (String.eqb battery_type "NCA"), (String.eqb battery_type "NMC").
Qed.

Lemma degradation_only_changes_lfp_witness :
  get_battery_parameters example_ParameterValues "NMC" true
  = get_battery_parameters example_ParameterValues "NMC" false.
Proof. apply degradation_only_changes_lfp. discriminate. Defined.

(** X4: for LFP with degradation enabled the result is the NMC parameter set
    overlaid with the LFP one: a parameter has its LFP value when the LFP set
    has it, and its NMC value otherwise. *)
Theorem lfp_degradation_overlays_nmc :
  ∀ ParameterValues (nmc lfp : gmap string value),
    ParameterValues "Mohtat2020" = Ok nmc →
    ParameterValues "Prada2013" = Ok lfp →
    ∃ parameters,
      get_battery_parameters ParameterValues "LFP" true = Ok parameters
      ∧ ∀ key, parameters !! key
               = match lfp !! key with
                 | Some v => Some v
                 | None => nmc !! key
                 end.
Proof.
  intros ParameterValues nmc lfp Hnmc Hlfp.
  exists (lfp ∪ nmc). split.
  - unfold get_battery_parameters. simpl. rewrite Hlfp. simpl.
    by rewrite Hnmc.
  - intros key. rewrite lookup_union. by destruct (lfp !! key), (nmc !! key).
Qed.

Lemma lfp_degradation_overlays_nmc_witness :
  ∃ parameters,
    get_battery_parameters example_ParameterValues "LFP" true = Ok parameters
    ∧ parameters !! "Nominal cell capacity [A.h]" = Some (PFloat 2.3)
    ∧ parameters !! "Ambient temperature [K]" = Some (PFloat 298.15).
Proof.
  destruct (lfp_degradation_overlays_nmc example_ParameterValues _ _
              eq_refl eq_refl) as (parameters & Hrun & Hget).
  exists parameters. split; [exact Hrun|]. split.
  - rewrite Hget. reflexivity.
  - rewrite Hget. reflexivity.
Defined.

(** ** The rate sweep *)

Section SweepShape.

Variable solve : simulation → solve_args → result Solution.
Variable format : value → string.

(** The graphs the loop has collected are kept in front of the ones it
    adds. *)
Lemma sweep_loop_graphs c_rates mode parameters minV maxV :
  ∀ graphs,
    sweep_loop solve format c_rates mode parameters minV maxV graphs
    = (new ← sweep_loop solve format c_rates mode parameters minV maxV [];
       Ok (graphs ++ new)).
Proof.
  induction c_rates as [|c_rate c_rates IH]; intros graphs.
  - simpl. by rewrite app_nil_r.
  - simpl.
    destruct (sweep_setup format mode c_rate minV maxV)
      as [[[experiment soc] label]|e]; [|reflexivity].
    simpl. destruct (solve _ _) as [sol|e]; [|reflexivity].
    simpl. destruct (entries (sol_entries sol) label) as [capacity|e];
      [|reflexivity].
    simpl. destruct (entries (sol_entries sol) "Voltage [V]") as [voltage|e];
      [|reflexivity].
    simpl. rewrite IH. rewrite (IH [_; _]).
    destruct (sweep_loop solve format c_rates mode parameters minV maxV [])
      as [new|e]; [|reflexivity].
    simpl. by rewrite <- app_assoc.
Qed.

Lemma sweep_loop_app c_rates1 c_rates2 mode parameters minV maxV :
  ∀ graphs,
    sweep_loop solve format (c_rates1 ++ c_rates2) mode parameters minV maxV
      graphs
    = (graphs1 ← sweep_loop solve format c_rates1 mode parameters minV maxV
                   graphs;
       sweep_loop solve format c_rates2 mode parameters minV maxV graphs1).
Proof.
  induction c_rates1 as [|c_rate c_rates1 IH]; intros graphs; [reflexivity|].
  simpl.
  destruct (sweep_setup format mode c_rate minV maxV)
    as [[[experiment soc] label]|e]; [|reflexivity].
  simpl. destruct (solve _ _) as [sol|e]; [|reflexivity].
  simpl. destruct (entries (sol_entries sol) label) as [capacity|e];
    [|reflexivity].
  simpl. destruct (entries (sol_entries sol) "Voltage [V]") as [voltage|e];
    [|reflexivity].
  simpl. apply IH.
Qed.

Lemma sweep_loop_shape c_rates mode parameters minV maxV :
  ∀ graphs out,
    sweep_loop solve format c_rates mode parameters minV maxV graphs = Ok out →
    ∃ new,
      out = graphs ++ new
      ∧ length new = (2 * length c_rates)%nat
      ∧ ∀ k c_rate, c_rates !! k = Some c_rate →
          ∃ capacity voltage,
            new !! (2 * k)%nat
            = Some {| name := sweep_label mode; fname := None;
                      values := capacity |}
            ∧ new !! (2 * k + 1)%nat
              = Some {| name := "Voltage [V]";
                        fname := Some (format c_rate +:+ "C");
                        values := voltage |}.
Proof.
  induction c_rates as [|c_rate c_rates IH]; intros graphs out Hrun.
  - injection Hrun as <-. exists []. rewrite app_nil_r.
    split; [done|]. split; [done|]. intros k c Hk. by rewrite lookup_nil in Hk.
  - simpl in Hrun.
    apply bind_Ok_inv in Hrun as ([[experiment soc] label] & Hsetup & Hrun).
    apply bind_Ok_inv in Hrun as (sol & _ & Hrun).
    apply bind_Ok_inv in Hrun as (capacity & _ & Hrun).
    apply bind_Ok_inv in Hrun as (voltage & _ & Hrun).
    assert (Hlabel : label = sweep_label mode).
    { unfold sweep_setup, sweep_label in *.
      destruct (String.eqb mode "Charge");
        apply bind_Ok_inv in Hsetup as (rate & _ & Hsetup);
        by injection Hsetup as _ _ <-. }
    subst label.
    apply IH in Hrun as (new & -> & Hlen & Hnew).
    eexists ([_; _] ++ new). split; [by rewrite <- app_assoc|].
    split; [rewrite length_app, Hlen; simpl; lia|].
    intros [|k] c Hk; simpl in Hk.
    + injection Hk as <-. eexists _, _. split; reflexivity.
    + destruct (Hnew k c Hk) as (cap & volt & H1 & H2).
      exists cap, volt. split.
      * replace (2 * S k)%nat with (2 + 2 * k)%nat by lia. exact H1.
      * replace (2 * S k + 1)%nat with (2 + (2 * k + 1))%nat by lia. exact H2.
Qed.

End SweepShape.

(** X5: when the sweep succeeds, its result is the title and two graphs per
    C-rate, in the order of the rates: a capacity series (named
    "Throughput capacity [A.h]" when the mode is exactly "Charge" and
    "Discharge capacity [A.h]" for any other mode) followed by a
    "Voltage [V]" series labelled with the rate. *)
Theorem rate_sweep_two_graphs_per_rate :
  ∀ solve format battery_type c_rates mode parameters result,
    run_charging_experiments solve format battery_type c_rates mode parameters
    = Ok result →
    ∃ graphs,
      result = [ Title (drop_last (capitalize mode)
                        +:+ "ing at different C Rates");
                 Graphs graphs ]
      ∧ length graphs = (2 * length c_rates)%nat
      ∧ ∀ k c_rate, c_rates !! k = Some c_rate →
          ∃ capacity voltage,
            graphs !! (2 * k)%nat
            = Some {| name := sweep_label mode; fname := None;
                      values := capacity |}
            ∧ graphs !! (2 * k + 1)%nat
              = Some {| name := "Voltage [V]";
                        fname := Some (format c_rate +:+ "C");
                        values := voltage |}.
Proof.
  intros solve format battery_type c_rates mode parameters result Hrun.
  unfold run_charging_experiments in Hrun.
  apply bind_Ok_inv in Hrun as ([minV maxV] & _ & Hrun).
  apply bind_Ok_inv in Hrun as (graphs & Hloop & Hrun).
  injection Hrun as <-.
  apply sweep_loop_shape in Hloop as (new & -> & Hlen & Hnew).
  exists new. by repeat split.
Qed.

Lemma rate_sweep_two_graphs_per_rate_witness :
  run_charging_experiments constant_solver digits_only "NMC"
    [PInt 1; PFloat 0.5] "charge" ∅
  = Ok [ Title "Charging at different C Rates";
         Graphs [ {| name := "Discharge capacity [A.h]"; fname := None;
                     values := [0; 2]%float |};
                  {| name := "Voltage [V]"; fname := Some "1C";
                     values := [3; 4]%float |};
                  {| name := "Discharge capacity [A.h]"; fname := None;
                     values := [0; 2]%float |};
                  {| name := "Voltage [V]"; fname := Some "?C";
                     values := [3; 4]%float |} ] ].
Proof.
  destruct (run_charging_experiments constant_solver digits_only "NMC"
              [PInt 1; PFloat 0.5] "charge" ∅) as [result|e] eqn:Hrun;
    [|vm_compute in Hrun; discriminate Hrun].
  destruct (rate_sweep_two_graphs_per_rate _ _ _ _ _ _ _ Hrun)
    as (graphs & -> & _ & _).
  vm_compute in Hrun. injection Hrun as ->. reflexivity.
Defined.

(** X6: sweeping a list of rates is sweeping its parts one after the other:
    when the sweeps of two lists succeed, the sweep of their concatenation
    gives the graphs of the first followed by those of the second, and when
    the sweep of the first list fails, the sweep of the concatenation fails
    with the same error and returns no graph. *)
Theorem rate_sweep_concatenates :
  ∀ solve format battery_type c_rates1 c_rates2 mode parameters,
    (∀ title graphs1 graphs2,
       run_charging_experiments solve format battery_type c_rates1 mode
         parameters = Ok [Title title; Graphs graphs1] →
       run_charging_experiments solve format battery_type c_rates2 mode
         parameters = Ok [Title title; Graphs graphs2] →
       run_charging_experiments solve format battery_type
         (c_rates1 ++ c_rates2) mode parameters
       = Ok [Title title; Graphs (graphs1 ++ graphs2)])
    ∧ (∀ e,
         run_charging_experiments solve format battery_type c_rates1 mode
           parameters = Raise e →
         run_charging_experiments solve format battery_type
           (c_rates1 ++ c_rates2) mode parameters = Raise e).
Proof.
  intros solve format battery_type c_rates1 c_rates2 mode parameters.
  unfold run_charging_experiments.
  destruct (get_voltage_limits battery_type) as [[minV maxV]|];
    [|split; [discriminate|done]].
  simpl. rewrite sweep_loop_app.
  destruct (sweep_loop solve format c_rates1 mode parameters minV maxV [])
    as [new1|e1]; simpl.
  - split; [|discriminate].
    intros title graphs1 graphs2 H1 H2. injection H1 as Ht <-.
    rewrite sweep_loop_graphs.
    destruct (sweep_loop solve format c_rates2 mode parameters minV maxV [])
      as [new2|e2]; [|discriminate H2].
    simpl in *. injection H2 as _ <-. by rewrite Ht.
  - split; [discriminate|done].
Qed.

Lemma rate_sweep_concatenates_witness :
  run_charging_experiments constant_solver digits_only "LFP"
    ([PInt 1] ++ [PInt 2]) "Charge" ∅
  = Ok [ Title "Charging at different C Rates";
         Graphs ([ {| name := "Throughput capacity [A.h]"; fname := None;
                      values := [0; 1]%float |};
                   {| name := "Voltage [V]"; fname := Some "1C";
                      values := [3; 4]%float |} ]
                 ++ [ {| name := "Throughput capacity [A.h]"; fname := None;
                         values := [0; 1]%float |};
                      {| name := "Voltage [V]"; fname := Some "?C";
                         values := [3; 4]%float |} ]) ]
  ∧ run_charging_experiments failing_solver digits_only "LFP"
      ([PInt 1] ++ [PInt 2]) "Charge" ∅ = Raise (LibraryError "solver").
Proof.
  split.
  - apply (proj1 (rate_sweep_concatenates constant_solver digits_only "LFP"
                    [PInt 1] [PInt 2] "Charge" ∅)); vm_compute; reflexivity.
  - apply (proj2 (rate_sweep_concatenates failing_solver digits_only "LFP"
                    [PInt 1] [PInt 2] "Charge" ∅)). vm_compute. reflexivity.
Defined.

(** ** More on the series reducer *)

Lemma flatten_cycles_missing (cycles : list (gmap string (list float)))
    variable_name :
  Exists (λ cycle, cycle !! variable_name = None) cycles →
  ∀ function,
    flatten_cycles cycles variable_name function
    = Raise (KeyError variable_name).
Proof.
  induction cycles as [|cycle cycles IH]; intros Hex function.
  - by apply Exists_nil in Hex.
  - simpl. unfold entries.
    destruct (cycle !! variable_name) as [l|] eqn:Hl; [|reflexivity].
    simpl. apply IH. apply Exists_cons in Hex as [Hex|Hex]; [congruence|done].
Qed.

Lemma plot_graphs_loop_missing solution number_of_cycles variables :
  ∀ present variable_name todo y_axis_name graphs,
    Forall (λ v, v ∈ variables.*1
                 ∧ Forall (λ cycle : gmap string (list float), is_Some (cycle !! v))
                     (cycles solution)) present →
    Exists (λ cycle : gmap string (list float), cycle !! variable_name = None)
      (cycles solution) →
    plot_graphs_loop solution number_of_cycles variables
      (present ++ variable_name :: todo) y_axis_name graphs
    = Raise (KeyError variable_name).
Proof.
  induction present as [|v present IH];
    intros variable_name todo y_axis_name graphs Hpresent Hmissing.
  - simpl. by rewrite flatten_cycles_missing.
  - apply Forall_cons in Hpresent as [[Hkey Hcycles] Hpresent].
    destruct (flatten_cycles_total _ _ Hcycles) as [samples Hsamples].
    destruct (dict_lookup_key _ _ Hkey) as [display Hdisplay].
    simpl. rewrite (flatten_cycles_concat _ _ _ Hsamples). simpl.
    rewrite Hdisplay. simpl. by apply IH.
Qed.

(** X7: with a y-axis name given, every value series carries that name,
    whichever variable it is for: when the solution has every requested
    variable, graph [2k + 1] is named as given and labelled with the [k]-th
    variable's display name. *)
Theorem given_y_axis_name_on_every_series :
  ∀ solution number_of_cycles variables given,
    Forall (λ v, Forall (λ cycle : gmap string (list float),
                           is_Some (cycle !! v)) (cycles solution))
      (variables.*1) →
    ∃ graphs,
      plot_graphs_against_cycle solution number_of_cycles variables (Some given)
      = Ok graphs
      ∧ length graphs = (2 * length variables)%nat
      ∧ ∀ k v, variables.*1 !! k = Some v →
          ∃ function display,
            dict_lookup variables v = Ok display
            ∧ flatten_cycles (cycles solution) v [] = Ok function
            ∧ graphs !! (2 * k + 1)%nat
              = Some {| name := given; fname := Some display;
                        values := function |}.
Proof.
  intros solution number_of_cycles variables given Hall.
  destruct (plot_graphs_loop_spec solution number_of_cycles variables
              (variables.*1) (Some given) [])
    as (graphs & Hrun & Hlen & Hgraphs).
  { apply Forall_forall. intros v Hv. split; [done|].
    by eapply Forall_forall in Hall. }
  exists graphs. split; [exact Hrun|].
  rewrite length_fmap in Hlen. split; [exact Hlen|].
  intros k v Hk.
  destruct (Hgraphs k v Hk) as (function & display & Hf & Hd & _ & Hv).
  by exists function, display.
Qed.

Lemma given_y_axis_name_on_every_series_witness :
  ∃ graphs,
    plot_graphs_against_cycle example_solution 3
      [("V", "Volts"); ("I", "Amps")] (Some "Signal") = Ok graphs
    ∧ graphs !! 1%nat
      = Some {| name := "Signal"; fname := Some "Volts";
                values := [1; 2; 3; 4; 5; 6; 7; 8]%float |}
    ∧ graphs !! 3%nat
      = Some {| name := "Signal"; fname := Some "Amps";
                values := [0.5; 0.25]%float |}.
Proof.
  assert (Hall :
    Forall (λ v, Forall (λ cycle : gmap string (list float),
                           is_Some (cycle !! v)) (cycles example_solution))
      [("V", "Volts"); ("I", "Amps")].*1)
    by (repeat constructor; eexists; reflexivity).
  destruct (given_y_axis_name_on_every_series example_solution 3
              [("V", "Volts"); ("I", "Amps")] "Signal" Hall)
    as (graphs & Hrun & _ & Hgraphs).
  exists graphs. split; [exact Hrun|]. split.
  - destruct (Hgraphs 0%nat "V" eq_refl) as (function & display & Hd & Hf & Hv).
    injection Hf as <-. injection Hd as <-. exact Hv.
  - destruct (Hgraphs 1%nat "I" eq_refl) as (function & display & Hd & Hf & Hv).
    injection Hf as <-. injection Hd as <-. exact Hv.
Defined.

(** X8: a variable that some cycle lacks makes both reducers fail with
    [KeyError] for that variable and return no graph at all; the
    multi-variable reducer fails at the first such variable even when the
    variables before it were found in every cycle. *)
Theorem missing_variable_raises_key_error :
  ∀ solution number_of_cycles variable_name,
    Exists (λ cycle : gmap string (list float), cycle !! variable_name = None)
      (cycles solution) →
    (∀ func_name,
       plot_against_cycle solution number_of_cycles variable_name func_name
       = Raise (KeyError variable_name))
    ∧ (∀ variables y_axis_name present todo,
         variables.*1 = present ++ variable_name :: todo →
         Forall (λ v, Forall (λ cycle : gmap string (list float),
                                is_Some (cycle !! v)) (cycles solution))
           present →
         plot_graphs_against_cycle solution number_of_cycles variables
           y_axis_name = Raise (KeyError variable_name)).
Proof.
  intros solution number_of_cycles variable_name Hmissing. split.
  - intros func_name. unfold plot_against_cycle.
    by rewrite flatten_cycles_missing.
  - intros variables y_axis_name present todo Hkeys Hpresent.
    unfold plot_graphs_against_cycle. rewrite Hkeys.
    apply plot_graphs_loop_missing; [|done].
    apply Forall_forall. intros v Hv. split.
    + rewrite Hkeys. apply elem_of_app. by left.
    + by eapply Forall_forall in Hpresent.
Qed.

Lemma missing_variable_raises_key_error_witness :
  plot_against_cycle example_solution 3 "T" "Temperature"
  = Raise (KeyError "T")
  ∧ plot_graphs_against_cycle example_solution 3
      [("V", "Volts"); ("T", "Temperature"); ("I", "Amps")] None
    = Raise (KeyError "T").
Proof.
  assert (Hmissing :
    Exists (λ cycle : gmap string (list float), cycle !! "T" = None)
      (cycles example_solution)) by (left; reflexivity).
  destruct (missing_variable_raises_key_error example_solution 3 "T" Hmissing)
    as [Hone Hmany].
  split; [apply Hone|].
  apply (Hmany _ None ["V"] ["I"]); [reflexivity|].
  repeat constructor; eexists; reflexivity.
Defined.

(** ** More on the merge *)

Section MergeTwice.

Variable float_of_str : string → option float.

(** An update run again on a store that holds what it left under its key
    changes nothing and ends the same way. *)
Lemma update_item_settled key v (p q q' : gmap string value) r :
  update_item float_of_str key v p = (q, r) →
  q' !! key = q !! key →
  update_item float_of_str key v q' = (q', r).
Proof.
  unfold update_item, Store.update. intros Hrun Hkey.
  destruct (bool_decide (p !! key = None)) eqn:Hp; simpl in Hrun.
  - injection Hrun as <- <-. apply bool_decide_eq_true in Hp.
    rewrite bool_decide_eq_true_2; [done | congruence].
  - apply bool_decide_eq_false in Hp.
    destruct (Store.stored float_of_str v) as [v'|e].
    + injection Hrun as <- <-. rewrite lookup_insert_eq in Hkey.
      rewrite bool_decide_eq_false_2 by congruence. simpl.
      by rewrite insert_id.
    + injection Hrun as <- <-.
      rewrite bool_decide_eq_false_2 by congruence. done.
Qed.

Lemma merge_temperature_settled temperature (p q q' : gmap string value) r :
  update_parameters float_of_str temperature PNone PNone PNone p = (q, r) →
  q' !! "Ambient temperature [K]" = q !! "Ambient temperature [K]" →
  update_parameters float_of_str temperature PNone PNone PNone q' = (q', r).
Proof.
  rewrite !merge_temperature. destruct (truthy temperature).
  - apply update_item_settled.
  - by intros [= <- <-].
Qed.

Lemma merge_thickness_settled thickness (p q q' : gmap string value) r :
  update_parameters float_of_str PNone PNone thickness PNone p = (q, r) →
  q' !! "Positive electrode thickness [m]"
  = q !! "Positive electrode thickness [m]" →
  update_parameters float_of_str PNone PNone thickness PNone q' = (q', r).
Proof.
  rewrite !merge_thickness. destruct (truthy thickness).
  - apply update_item_settled.
  - by intros [= <- <-].
Qed.

Lemma merge_silicon_settled silicon (p q q' : gmap string value) r :
  update_parameters float_of_str PNone PNone PNone silicon p = (q, r) →
  q' !! "Primary: Negative electrode active material volume fraction"
  = q !! "Primary: Negative electrode active material volume fraction" →
  q' !! "Secondary: Negative electrode active material volume fraction"
  = q !! "Secondary: Negative electrode active material volume fraction" →
  update_parameters float_of_str PNone PNone PNone silicon q' = (q', r).
Proof.
  rewrite !merge_silicon. destruct (truthy silicon); [|by intros [= <- <-]].
  destruct (mul_float silicon 0.5) as [half|e]; [|by intros [= <- <-]].
  destruct (update_item float_of_str
              "Primary: Negative electrode active material volume fraction"
              (PFloat (1 - half)) p) as [p' [[]|e]] eqn:Hprimary.
  - intros Hsecondary Hp Hs.
    assert (Hq : q !! "Primary: Negative electrode active material volume fraction"
                 = p' !! "Primary: Negative electrode active material volume fraction").
    { replace q with (update_item float_of_str
        "Secondary: Negative electrode active material volume fraction"
        (PFloat half) p').1 by (by rewrite Hsecondary).
      by apply update_item_lookup_ne. }
    rewrite (update_item_settled _ _ _ _ q' _ Hprimary) by congruence.
    by apply (update_item_settled _ _ _ _ q' _ Hsecondary).
  - intros [= <- <-] Hp Hs.
    by rewrite (update_item_settled _ _ _ _ q' _ Hprimary).
Qed.

End MergeTwice.

(** X9: the merge is not atomic.  When a capacity override is given and the
    base set has no nominal capacity, the merge fails (a [TypeError], the
    spec's [MissingBaseValue]) after the temperature override has been
    applied, and before the thickness and silicon overrides are looked at:
    the store is left with the temperature applied and nothing else.  A
    temperature override that raises itself ends the merge before that. *)
Theorem capacity_override_missing_base_value :
  ∀ float_of_str (base : gmap string value)
    temperature capacity thickness silicon,
    base !! "Nominal cell capacity [A.h]" = None →
    truthy capacity = true →
    let first :=
      update_parameters float_of_str temperature PNone PNone PNone base in
    let run :=
      update_parameters float_of_str temperature capacity thickness silicon
        base in
    (first.2 = Ok () → run = (first.1, Raise TypeError))
    ∧ (∀ e, first.2 = Raise e → run = (base, Raise e))
    ∧ (truthy temperature = false → run = (base, Raise TypeError))
    ∧ (truthy temperature = true →
       is_Some (base !! "Ambient temperature [K]") →
       (∀ s, temperature ≠ PStr s) →
       run = (<["Ambient temperature [K]" := temperature]> base,
              Raise TypeError)).
Proof.
  intros float_of_str base temperature capacity thickness silicon Hbase Hc
    first run.
  assert (Hdiv : truediv capacity PNone = Raise TypeError).
  { unfold truediv. simpl. by destruct (as_number capacity) as [[]|]. }
  assert (Hrun : ∀ p,
    first = (p, Ok ()) → run = (p, Raise TypeError)).
  { intros p Hfirst. subst run first.
    rewrite merge_steps, Hfirst, merge_capacity, Hc.
    replace (p !! "Nominal cell capacity [A.h]") with (@None value).
    - simpl. by rewrite Hdiv.
    - rewrite <- Hbase. symmetry.
      replace p with
        (update_parameters float_of_str temperature PNone PNone PNone base).1
        by (by rewrite Hfirst).
      apply merge_temperature_other. by right. }
  split; [|split; [|split]].
  - intros Hok. apply Hrun. destruct first as [p [[]|e]]; [done|discriminate].
  - intros e He. subst run. rewrite merge_steps. fold first.
    assert (Hp : first.1 = base).
    { subst first. rewrite merge_temperature in *.
      destruct (truthy temperature); [|discriminate He].
      unfold update_item, Store.update in *.
      repeat case_match; simpl in *; try done; discriminate He. }
    destruct first as [p [[]|e']]; simpl in *; [discriminate He|].
    by injection He as ->; subst p.
  - intros Ht. apply Hrun. subst first. by rewrite merge_temperature, Ht.
  - intros Ht Hkey Hv. apply Hrun. subst first.
    rewrite merge_temperature, Ht.
    destruct (update_item_cases float_of_str "Ambient temperature [K]"
                temperature base) as [_ Hpresent].
    destruct (Hpresent Hkey) as (Hplain & _). by apply Hplain.
Qed.

Lemma capacity_override_missing_base_value_witness :
  let base : gmap string value :=
    {[ "Electrode height [m]" := PFloat 1;
       "Ambient temperature [K]" := PFloat 298.15 ]} in
  let run :=
    update_parameters example_float_of_str (PInt 298) (PFloat 2)
      (PFloat 0.0001) (PFloat 0.3) base in
  run.2 = Raise TypeError
  ∧ run.1 !! "Ambient temperature [K]" = Some (PInt 298)
  ∧ run.1 !! "Electrode height [m]" = Some (PFloat 1).
Proof.
  intros base run.
  destruct (capacity_override_missing_base_value example_float_of_str base
              (PInt 298) (PFloat 2) (PFloat 0.0001) (PFloat 0.3)
              eq_refl eq_refl) as (_ & _ & _ & Hrun).
  subst run. rewrite Hrun; [| reflexivity | by eexists | discriminate].
  repeat split.
Defined.

(** X10: the merge writes to five parameters at most (temperature, electrode
    height, positive electrode thickness and the two volume fractions):
    every other parameter keeps its base value, and no parameter of the base
    set is ever removed, whether the merge completes or fails. *)
Theorem merge_touches_five_parameters :
  ∀ float_of_str (base : gmap string value)
    temperature capacity thickness silicon key,
    let run :=
      update_parameters float_of_str temperature capacity thickness silicon
        base in
    (key ≠ "Ambient temperature [K]" →
     key ≠ "Electrode height [m]" →
     key ≠ "Positive electrode thickness [m]" →
     key ≠ "Primary: Negative electrode active material volume fraction" →
     key ≠ "Secondary: Negative electrode active material volume fraction" →
     run.1 !! key = base !! key)
    ∧ (is_Some (base !! key) → is_Some (run.1 !! key)).
Proof.
  intros float_of_str base temperature capacity thickness silicon key run.
  split.
  - intros H1 H2 H3 H4 H5. apply merge_other; auto.
  - apply merge_keeps.
Qed.

Lemma merge_touches_five_parameters_witness :
  (update_parameters example_float_of_str (PInt 298) (PFloat 2)
     (PFloat 0.0001) (PFloat 0.3) example_base).1
    !! "Nominal cell capacity [A.h]" = Some (PFloat 1).
Proof.
  destruct (merge_touches_five_parameters example_float_of_str example_base
              (PInt 298) (PFloat 2) (PFloat 0.0001) (PFloat 0.3)
              "Nominal cell capacity [A.h]")
    as [Hframe _].
  rewrite Hframe by discriminate. reflexivity.
Defined.

(** X11: the capacity override is not idempotent.  It rescales the electrode
    height and leaves the nominal capacity as it was, so merging the same
    capacity a second time rescales the height once more. *)
Theorem capacity_override_twice_scales_twice :
  ∀ float_of_str (base : gmap string value) (c bc bh : float),
    base !! "Nominal cell capacity [A.h]" = Some (PFloat bc) →
    base !! "Electrode height [m]" = Some (PFloat bh) →
    PrimFloat.eqb c 0 = false →
    PrimFloat.eqb bc 0 = false →
    let once :=
      update_parameters float_of_str PNone (PFloat c) PNone PNone base in
    let twice :=
      update_parameters float_of_str PNone (PFloat c) PNone PNone once.1 in
    once.1 !! "Electrode height [m]" = Some (PFloat (bh * (c / bc)))
    ∧ twice.1 !! "Electrode height [m]"
      = Some (PFloat (bh * (c / bc) * (c / bc)))
    ∧ twice.1 !! "Nominal cell capacity [A.h]" = Some (PFloat bc).
Proof.
  intros float_of_str base c bc bh Hbc Hbh Hc Hbc0 once twice.
  assert (Hstep : ∀ (p : gmap string value) h,
    p !! "Nominal cell capacity [A.h]" = Some (PFloat bc) →
    p !! "Electrode height [m]" = Some (PFloat h) →
    update_parameters float_of_str PNone (PFloat c) PNone PNone p
    = (<["Electrode height [m]" := PFloat (h * (c / bc))]> p, Ok ())).
  { intros p h Hpc Hph. rewrite merge_capacity. simpl. rewrite Hc. simpl.
    rewrite Hpc, Hph. simpl. rewrite (truediv_floats _ _ Hbc0). simpl.
    by rewrite update_item_present by (by rewrite Hph). }
  subst twice once. rewrite (Hstep base bh Hbc Hbh). simpl.
  split; [by rewrite lookup_insert_eq|].
  rewrite (Hstep _ (bh * (c / bc))%float);
    [|by rewrite lookup_insert_ne|by rewrite lookup_insert_eq].
  simpl. split; [by rewrite lookup_insert_eq|].
  by rewrite !lookup_insert_ne by done.
Qed.

Lemma capacity_override_twice_scales_twice_witness :
  let once :=
    update_parameters example_float_of_str PNone (PFloat 2) PNone PNone
      example_base in
  let twice :=
    update_parameters example_float_of_str PNone (PFloat 2) PNone PNone
      once.1 in
  once.1 !! "Electrode height [m]" = Some (PFloat 6)
  ∧ twice.1 !! "Electrode height [m]" = Some (PFloat 12).
Proof.
  destruct (capacity_override_twice_scales_twice example_float_of_str
              example_base 2 1 3 eq_refl eq_refl eq_refl eq_refl)
    as (Honce & Htwice & _).
  split; [exact Honce | exact Htwice].
Defined.

(** X12: without a capacity override the merge is idempotent: merging the
    same overrides again into the store the first merge left gives the same
    store and the same outcome. *)
Theorem merge_without_capacity_idempotent :
  ∀ float_of_str (base : gmap string value)
    temperature capacity thickness silicon,
    truthy capacity = false →
    let once :=
      update_parameters float_of_str temperature capacity thickness silicon
        base in
    update_parameters float_of_str temperature capacity thickness silicon
      once.1
    = once.
Proof.
  intros float_of_str base temperature capacity thickness silicon Hc once.
  subst once.
  rewrite (merge_steps _ temperature capacity thickness silicon base).
  destruct (update_parameters _ temperature PNone PNone PNone base)
    as [p1 r1] eqn:H1.
  assert (Hcapacity : ∀ p,
    update_parameters float_of_str PNone capacity PNone PNone p = (p, Ok ()))
    by (intros p; by rewrite merge_capacity, Hc).
  destruct r1 as [[]|e]; simpl.
  - rewrite Hcapacity.
    destruct (update_parameters _ PNone PNone thickness PNone p1)
      as [p3 r3] eqn:H3.
    assert (H31 : p3 !! "Ambient temperature [K]"
                  = p1 !! "Ambient temperature [K]").
    { replace p3 with
        (update_parameters float_of_str PNone PNone thickness PNone p1).1
        by (by rewrite H3).
      apply merge_thickness_other. by right. }
    destruct r3 as [[]|e]; simpl.
    + destruct (update_parameters _ PNone PNone PNone silicon p3)
        as [p4 r4] eqn:H4.
      assert (H43 : ∀ k,
        k ≠ "Primary: Negative electrode active material volume fraction" →
        k ≠ "Secondary: Negative electrode active material volume fraction" →
        p4 !! k = p3 !! k).
      { intros k Hp Hs.
        replace p4 with
          (update_parameters float_of_str PNone PNone PNone silicon p3).1
          by (by rewrite H4).
        apply merge_silicon_other. by right. }
      simpl. rewrite merge_steps.
      rewrite (merge_temperature_settled _ _ _ _ p4 _ H1)
        by (rewrite H43 by done; exact H31).
      rewrite Hcapacity.
      rewrite (merge_thickness_settled _ _ _ _ p4 _ H3) by (by apply H43).
      by apply (merge_silicon_settled _ _ _ _ p4 _ H4).
    + rewrite merge_steps.
      rewrite (merge_temperature_settled _ _ _ _ p3 _ H1) by exact H31.
      rewrite Hcapacity.
      by rewrite (merge_thickness_settled _ _ _ _ p3 _ H3).
  - rewrite merge_steps.
    by rewrite (merge_temperature_settled _ _ _ _ p1 _ H1).
Qed.

Lemma merge_without_capacity_idempotent_witness :
  let once :=
    update_parameters example_float_of_str (PInt 298) PNone (PFloat 0.0001)
      (PFloat 0.3) example_base in
  update_parameters example_float_of_str (PInt 298) PNone (PFloat 0.0001)
    (PFloat 0.3) once.1
  = once.
Proof.
  apply (merge_without_capacity_idempotent example_float_of_str example_base
           (PInt 298) PNone (PFloat 0.0001) (PFloat 0.3)).
  reflexivity.
Defined.

(** ** More on the request handler *)

Lemma flatten_cycles_Ok_inv (cycles : list (gmap string (list float)))
    variable_name :
  ∀ function out,
    flatten_cycles cycles variable_name function = Ok out →
    Forall (λ cycle, is_Some (cycle !! variable_name)) cycles.
Proof.
  induction cycles as [|cycle cycles IH]; intros function out Hrun.
  - constructor.
  - simpl in Hrun. apply bind_Ok_inv in Hrun as (l & Hl & Hrun).
    constructor; [|by eapply IH].
    unfold entries in Hl. destruct (cycle !! variable_name); [eauto|discriminate].
Qed.

Lemma plot_graphs_loop_Ok_inv solution number_of_cycles variables :
  ∀ todo y_axis_name graphs out,
    plot_graphs_loop solution number_of_cycles variables todo y_axis_name graphs
    = Ok out →
    Forall (λ v, v ∈ variables.*1
                 ∧ Forall (λ cycle : gmap string (list float), is_Some (cycle !! v))
                     (cycles solution)) todo.
Proof.
  induction todo as [|v todo IH]; intros y_axis_name graphs out Hrun.
  - constructor.
  - simpl in Hrun. apply bind_Ok_inv in Hrun as (function & Hf & Hrun).
    apply bind_Ok_inv in Hrun as (display & Hd & Hrun).
    constructor; [|by eapply IH]. split.
    + clear -Hd. induction variables as [|[k d] variables IHv];
        [discriminate Hd|].
      simpl in Hd. destruct (String.eqb_spec k v) as [->|Hne].
      * simpl. apply elem_of_cons. by left.
      * simpl. apply elem_of_cons. right. by apply IHv.
    + by eapply flatten_cycles_Ok_inv.
Qed.

(** X13: the handler reads the temperature and the silicon percentage only.
    Two request bodies that agree on these two fields get the same response,
    whatever else they hold ("C Rates" is read and not used). *)
Theorem lab2_response_depends_on_two_fields :
  ∀ ParameterValues float_of_str solve str items1 items2,
    lab2_data_get items1 "Ambient temperature [K]"
    = lab2_data_get items2 "Ambient temperature [K]" →
    lab2_data_get items1 "Silicon Percentage"
    = lab2_data_get items2 "Silicon Percentage" →
    simulate_lab2 ParameterValues float_of_str solve str (Ok (PDict items1))
    = simulate_lab2 ParameterValues float_of_str solve str (Ok (PDict items2)).
Proof.
  intros ParameterValues float_of_str solve str items1 items2 Ht Hs.
  unfold simulate_lab2.
  destruct (ParameterValues "Chen2020_composite") as [base|e] eqn:Hbase.
  - by rewrite !(lab2_try_dict _ _ _ _ _ Hbase), Ht, Hs.
  - assert (Hfail : ∀ items,
      lab2_try ParameterValues float_of_str solve (Ok (PDict items)) = Raise e).
    { intros items. unfold lab2_try, data_get. simpl.
      destruct (dict_lookup items "Ambient temperature [K]");
        destruct (dict_lookup items "C Rates");
        destruct (dict_lookup items "Silicon Percentage");
        simpl; by rewrite Hbase. }
    by rewrite !Hfail.
Qed.

Lemma lab2_response_depends_on_two_fields_witness :
  simulate_lab2 (λ _, Ok example_lab2_base) example_float_of_str
      example_lab2_solver describe
    (Ok (PDict [("Silicon Percentage", PFloat 0.5);
                ("C Rates", PList [PInt 2; PInt 3])]))
  = simulate_lab2 (λ _, Ok example_lab2_base) example_float_of_str
      example_lab2_solver describe
      (Ok (PDict [("Ambient temperature [K]", PNone);
                  ("Silicon Percentage", PFloat 0.5);
                  ("Capacity", PInt 7)])).
Proof.
  apply lab2_response_depends_on_two_fields; reflexivity.
Defined.

(** X14: a successful response has two groups: "Total Lithium in
    electrodes" with six series and "Capacity over Cycles" with two.  In the
    first group the three value series are all named after the first
    variable, "Total lithium in positive electrode [mol]", and told apart by
    their labels Positive, Negative and Total only; each is preceded by a
    "Cycle" axis of its own length. *)
Theorem lab2_success_shape :
  ∀ ParameterValues float_of_str solve str request_json final_result,
    simulate_lab2 ParameterValues float_of_str solve str request_json
    = JsonGroups final_result →
    ∃ graphs1 capacity_axis capacity,
      final_result
      = [ [Title "Total Lithium in electrodes"; Graphs graphs1];
          [Title "Capacity over Cycles";
           Graphs [ {| name := "Cycle"; fname := None;
                       values := capacity_axis |};
                    {| name := "Throughput capacity [A.h]";
                       fname := Some "Capacity"; values := capacity |} ]] ]
      ∧ length capacity_axis = length capacity
      ∧ length graphs1 = 6%nat
      ∧ ∀ k label, ["Positive"; "Negative"; "Total"] !! k = Some label →
          ∃ axis function,
            graphs1 !! (2 * k)%nat
            = Some {| name := "Cycle"; fname := None; values := axis |}
            ∧ graphs1 !! (2 * k + 1)%nat
              = Some {| name := "Total lithium in positive electrode [mol]";
                        fname := Some label; values := function |}
            ∧ length axis = length function.
Proof.
  intros ParameterValues float_of_str solve str request_json final_result Hrun.
  unfold simulate_lab2 in Hrun.
  destruct (lab2_try ParameterValues float_of_str solve request_json) as [r|e] eqn:Htry;
    [|discriminate Hrun].
  injection Hrun as ->. unfold lab2_try in Htry.
  repeat match type of Htry with
    | _ ≫= _ = Ok _ =>
        apply bind_Ok_inv in Htry as (? & ? & Htry); simpl in Htry
    | (let '(_, _) := ?x in _) = Ok _ => destruct x; simpl in Htry
    end.
  injection Htry as <-.
  match goal with
  | H : plot_against_cycle ?sol _ _ _ = Ok ?g2 |- _ =>
      rename H into Hg2; rename g2 into graphs2; rename sol into solution
  end.
  match goal with
  | H : plot_graphs_against_cycle _ _ _ _ = Ok ?g1 |- _ =>
      rename H into Hg1; rename g1 into graphs1
  end.
  unfold plot_against_cycle in Hg2.
  apply bind_Ok_inv in Hg2 as (capacity & _ & Hg2). injection Hg2 as <-.
  exists graphs1, (linspace0 3 (length capacity)), capacity.
  split; [reflexivity|]. split; [apply length_linspace0|].
  unfold plot_graphs_against_cycle in Hg1.
  pose proof (plot_graphs_loop_Ok_inv _ _ _ _ _ _ _ Hg1) as Hall.
  destruct (plot_graphs_loop_spec solution 3 lab2_plots (lab2_plots.*1) None []
              Hall) as (graphs & Hspec & Hlen & Hgraphs).
  rewrite Hspec in Hg1. injection Hg1 as <-. simpl in Hlen.
  split; [exact Hlen|].
  intros [|[|[|k]]] label Hk; try discriminate Hk; injection Hk as <-.
  - destruct (Hgraphs 0%nat _ eq_refl) as (f & d & _ & Hd & Ha & Hv).
    injection Hd as <-. eexists _, f.
    split; [exact Ha|]. split; [exact Hv|]. apply length_linspace0.
  - destruct (Hgraphs 1%nat _ eq_refl) as (f & d & _ & Hd & Ha & Hv).
    injection Hd as <-. eexists _, f.
    split; [exact Ha|]. split; [exact Hv|]. apply length_linspace0.
  - destruct (Hgraphs 2%nat _ eq_refl) as (f & d & _ & Hd & Ha & Hv).
    injection Hd as <-. eexists _, f.
    split; [exact Ha|]. split; [exact Hv|]. apply length_linspace0.
Qed.

Lemma lab2_success_shape_witness :
  ∃ graphs1,
    simulate_lab2 (λ _, Ok example_lab2_base) example_float_of_str
      example_lab2_solver describe
      (Ok (PDict []))
    = JsonGroups
        [ [Title "Total Lithium in electrodes"; Graphs graphs1];
          [Title "Capacity over Cycles";
           Graphs [ {| name := "Cycle"; fname := None;
                       values := [0; 3]%float |};
                    {| name := "Throughput capacity [A.h]";
                       fname := Some "Capacity"; values := [0; 5]%float |} ]] ]
    ∧ graphs1 !! 3%nat
      = Some {| name := "Total lithium in positive electrode [mol]";
                fname := Some "Negative"; values := [2; 1.5]%float |}.
Proof.
  destruct (simulate_lab2 (λ _, Ok example_lab2_base) example_float_of_str
      example_lab2_solver describe
              (Ok (PDict []))) as [final_result|messages] eqn:Hrun;
    [|vm_compute in Hrun; discriminate Hrun].
  destruct (lab2_success_shape _ _ _ _ _ _ Hrun)
    as (graphs1 & axis & capacity & -> & _ & _ & _).
  exists graphs1. vm_compute in Hrun. injection Hrun as Hg Ha Hc. subst.
  split; reflexivity.
Defined.

(** ** Splitting an array at its peak *)

Lemma argmax_loop_bound (rest : list float) :
  ∀ mp max_ind i,
    (max_ind < i)%nat →
    (argmax_loop mp max_ind i rest < i + length rest)%nat.
Proof.
  induction rest as [|x rest IH]; intros mp max_ind i Hlt; simpl.
  - lia.
  - destruct (negb (PrimFloat.leb x mp)).
    + destruct (is_nan x); [lia|].
      specialize (IH x i (S i) ltac:(lia)). lia.
    + specialize (IH mp max_ind (S i) ltac:(lia)). lia.
Qed.

Lemma argmax_bound (first : float) (rest : list float) :
  (argmax first rest < length (first :: rest))%nat.
Proof.
  unfold argmax. destruct (is_nan first); simpl; [lia|].
  pose proof (argmax_loop_bound rest first 0 1 ltac:(lia)). lia.
Qed.

(** X15: an empty array splits into two empty arrays; a non-empty one is
    its left part, one element (the peak) and its right part, in that
    order: the split drops exactly one element and keeps the others in
    place. *)
Theorem split_at_peak_drops_one_element :
  split_at_peak [] = ([], [])
  ∧ ∀ arr, arr ≠ [] →
      ∃ peak,
        arr = (split_at_peak arr).1 ++ peak :: (split_at_peak arr).2
        ∧ (length (split_at_peak arr).1 + length (split_at_peak arr).2 + 1
           = length arr)%nat.
Proof.
  split; [reflexivity|].
  intros [|first rest] Hne; [done|].
  pose proof (argmax_bound first rest) as Hlt.
  unfold split_at_peak. cbv zeta. cbn [fst snd].
  set (peak_index := argmax first rest) in *.
  destruct (lookup_lt_is_Some_2 (first :: rest) peak_index Hlt) as [peak Hpeak].
  exists peak. split.
  - rewrite Nat.add_1_r. symmetry. by apply take_drop_middle.
  - rewrite length_take, length_drop. lia.
Qed.

Lemma split_at_peak_drops_one_element_witness :
  [1; 3; 2; 3; 0]%float
  = (split_at_peak [1; 3; 2; 3; 0]%float).1
    ++ 3%float :: (split_at_peak [1; 3; 2; 3; 0]%float).2
  ∧ split_at_peak [1; 3; 2; 3; 0]%float = ([1]%float, [2; 3; 0]%float).
Proof.
  destruct split_at_peak_drops_one_element as [_ Hsplit].
  destruct (Hsplit [1; 3; 2; 3; 0]%float) as (peak & Harr & _); [discriminate|].
  split; [|reflexivity].
  change (split_at_peak [1; 3; 2; 3; 0]%float)
    with ([1]%float, [2; 3; 0]%float) in *.
  cbn [fst snd] in *. simpl in Harr. injection Harr as <-. reflexivity.
Defined.

Lemma SFltb_rank (x y : spec_float) :
  x ≠ S754_nan → y ≠ S754_nan →
  SFltb x y = true ↔ rank_lt (SF_rank x) (SF_rank y).
Proof.
  intros Hx Hy. unfold SFltb, SFcompare, rank_lt.
  destruct x as [[]|[]| |[] mx ex], y as [[]|[]| |[] my ey];
    try done; cbn [SF_rank fst snd];
    try (split; [discriminate|lia]); try (split; [reflexivity|lia]);
    try (split; [lia|reflexivity]);
    change (Pos.compare_cont Eq ?a ?b) with (Pos.compare a b);
    destruct (Z.compare_spec ex ey); destruct (Pos.compare_spec mx my);
    cbn [CompOpp]; split; intros H'; try discriminate H'; try reflexivity;
    lia.
Qed.

Lemma SFleb_rank (x y : spec_float) :
  x ≠ S754_nan → y ≠ S754_nan →
  SFleb x y = true ↔ rank_le (SF_rank x) (SF_rank y).
Proof.
  intros Hx Hy. unfold SFleb, SFcompare, rank_le.
  destruct x as [[]|[]| |[] mx ex], y as [[]|[]| |[] my ey];
    try done; cbn [SF_rank fst snd];
    try (split; [discriminate|lia]); try (split; [reflexivity|lia]);
    try (split; [lia|reflexivity]);
    change (Pos.compare_cont Eq ?a ?b) with (Pos.compare a b);
    destruct (Z.compare_spec ex ey); destruct (Pos.compare_spec mx my);
    cbn [CompOpp]; split; intros H'; try discriminate H'; try reflexivity;
    lia.
Qed.

Lemma is_nan_false (x : float) : is_nan x = false → Prim2SF x ≠ S754_nan.
Proof.
  unfold is_nan. rewrite FloatAxioms.eqb_spec. intros H Hnan.
  rewrite Hnan in H. discriminate H.
Qed.

Lemma float_leb_false_ltb (x y : float) :
  is_nan x = false → is_nan y = false →
  PrimFloat.leb x y = false → PrimFloat.ltb y x = true.
Proof.
  intros Hx%is_nan_false Hy%is_nan_false. rewrite leb_spec, ltb_spec.
  intros Hle. apply SFltb_rank; [done..|].
  assert (Hnle : ¬ rank_le (SF_rank (Prim2SF x)) (SF_rank (Prim2SF y))).
  { intros H. apply SFleb_rank in H; [congruence|done..]. }
  unfold rank_le, rank_lt in *. lia.
Qed.

Lemma float_lt_trans (x y z : float) :
  is_nan x = false → is_nan y = false → is_nan z = false →
  PrimFloat.ltb x y = true → PrimFloat.ltb y z = true →
  PrimFloat.ltb x z = true.
Proof.
  intros Hx%is_nan_false Hy%is_nan_false Hz%is_nan_false.
  rewrite !ltb_spec. rewrite !SFltb_rank by done.
  unfold rank_lt. lia.
Qed.

Lemma float_le_lt_trans (x y z : float) :
  is_nan x = false → is_nan y = false → is_nan z = false →
  PrimFloat.leb x y = true → PrimFloat.ltb y z = true →
  PrimFloat.ltb x z = true.
Proof.
  intros Hx%is_nan_false Hy%is_nan_false Hz%is_nan_false.
  rewrite leb_spec, !ltb_spec. rewrite !SFltb_rank, SFleb_rank by done.
  unfold rank_lt, rank_le. lia.
Qed.

(** The scan keeps the maximum so far [mp] at [length before]: the elements
    before it are smaller, those after it, up to the one looked at, are not
    larger. *)
Lemma argmax_loop_peak (rest : list float) :
  ∀ before mp between,
    Forall (λ y, is_nan y = false) (before ++ mp :: between ++ rest) →
    Forall (λ y, PrimFloat.ltb y mp = true) before →
    Forall (λ y, PrimFloat.leb y mp = true) between →
    let arr := before ++ mp :: between ++ rest in
    let j := argmax_loop mp (length before)
               (length before + 1 + length between) rest in
    ∃ peak,
      arr !! j = Some peak
      ∧ Forall (λ y, PrimFloat.ltb y peak = true) (take j arr)
      ∧ Forall (λ y, PrimFloat.leb y peak = true) (drop (j + 1) arr).
Proof.
  induction rest as [|x rest IH]; intros before mp between Hnan Hlt Hle.
  - simpl. rewrite app_nil_r. exists mp. split; [|split].
    + by apply list_lookup_middle.
    + by rewrite take_app_length.
    + rewrite drop_app_add. simpl. by rewrite drop_0.
  - cbn [argmax_loop].
    assert (Hmp : is_nan mp = false).
    { apply Forall_app in Hnan as [_ Hnan]. by apply Forall_cons in Hnan as [? _]. }
    assert (Hx : is_nan x = false).
    { apply Forall_app in Hnan as [_ Hnan]. apply Forall_cons in Hnan as [_ Hnan].
      apply Forall_app in Hnan as [_ Hnan]. by apply Forall_cons in Hnan as [? _]. }
    assert (Hbefore : Forall (λ y, is_nan y = false) before)
      by (by apply Forall_app in Hnan as [? _]).
    assert (Hbetween : Forall (λ y, is_nan y = false) between).
    { apply Forall_app in Hnan as [_ Hnan]. apply Forall_cons in Hnan as [_ Hnan].
      by apply Forall_app in Hnan as [? _]. }
    destruct (PrimFloat.leb x mp) eqn:Hxmp; cbn [negb].
    + specialize (IH before mp (between ++ [x])).
      rewrite length_app in IH. simpl in IH.
      replace (length before + 1 + (length between + 1))%nat
        with (S (length before + 1 + length between)) in IH by lia.
      rewrite <- !app_assoc in IH. simpl in IH.
      apply IH; [done|done|].
      apply Forall_app. split; [done|]. by constructor.
    + rewrite Hx.
      assert (Hnew : PrimFloat.ltb mp x = true)
        by (by apply float_leb_false_ltb).
      specialize (IH (before ++ mp :: between) x []).
      rewrite length_app in IH. simpl in IH.
      replace (length before + S (length between))%nat
        with (length before + 1 + length between)%nat in IH by lia.
      replace (length before + 1 + length between + 1 + 0)%nat
        with (S (length before + 1 + length between)) in IH by lia.
      rewrite <- !app_assoc in IH. simpl in IH.
      apply IH; [done| |constructor].
      apply Forall_app. split; [|constructor].
      * apply Forall_forall. intros y Hy.
        apply (float_lt_trans y mp x); try done.
        -- by eapply Forall_forall in Hbefore.
        -- by eapply Forall_forall in Hlt.
      * exact Hnew.
      * apply Forall_forall. intros y Hy.
        apply (float_le_lt_trans y mp x); try done.
        -- by eapply Forall_forall in Hbetween.
        -- by eapply Forall_forall in Hle.
Qed.

(** X16: on an array without NaN, the element the split drops is a maximum
    and its first occurrence: every element of the left part is smaller than
    it and no element of the right part is larger. *)
Theorem split_at_peak_drops_first_maximum :
  ∀ arr,
    arr ≠ [] →
    Forall (λ y, is_nan y = false) arr →
    ∃ peak,
      arr = (split_at_peak arr).1 ++ peak :: (split_at_peak arr).2
      ∧ Forall (λ y, PrimFloat.ltb y peak = true) (split_at_peak arr).1
      ∧ Forall (λ y, PrimFloat.leb y peak = true) (split_at_peak arr).2.
Proof.
  intros [|first rest] Hne Hnan; [done|].
  assert (Hfirst : is_nan first = false) by (by apply Forall_cons in Hnan as [? _]).
  destruct (argmax_loop_peak rest [] first [] Hnan ltac:(constructor)
              ltac:(constructor)) as (peak & Hpeak & Hleft & Hright).
  simpl in Hpeak, Hleft, Hright.
  unfold split_at_peak, argmax. rewrite Hfirst. cbn [fst snd].
  exists peak. split; [|split; assumption].
  rewrite Nat.add_1_r. symmetry. by apply take_drop_middle.
Qed.

Lemma split_at_peak_drops_first_maximum_witness :
  ∃ peak,
    [1; 3; 2; 3; 0]%float
    = (split_at_peak [1; 3; 2; 3; 0]%float).1
      ++ peak :: (split_at_peak [1; 3; 2; 3; 0]%float).2
    ∧ Forall (λ y, PrimFloat.ltb y peak = true) [1]%float
    ∧ Forall (λ y, PrimFloat.leb y peak = true) [2; 3; 0]%float.
Proof.
  destruct (split_at_peak_drops_first_maximum [1; 3; 2; 3; 0]%float)
    as (peak & Harr & Hleft & Hright);
    [discriminate | repeat constructor |].
  exists peak. split; [exact Harr|]. split; [exact Hleft | exact Hright].
Defined.
